(** * Gestify: the gesture-approval state machine and its registry

    A shallow embedding of [gestures.py], [states.py], the decorators, the
    volume methods and the singleton of [spotify.py], the callback of
    [recognition.py] and the start-up registration and direct dispatch of
    [app.py], followed by the properties of the approval cycle and of its
    collaborators.  The camera loop, the drawing and the asynchronous call
    of the recogniser are input and output only and are left out.

    Conventions of the embedding:
    - a Python dict is a [gmap]; [d.get(k)] and [k in d] are lookups;
    - a gesture observation is [option Gesture]: [None] is Python's [None],
      which the recogniser stores when no (known) gesture is seen;
    - a callable is a function on an environment (the outside world, the
      controller's [device_id] and the console) that returns or raises; it
      has no handle on the manager or the registry, as none of the actions
      of the program has;
    - methods that mutate [self] are computations in a small state-and-
      exception monad over a configuration; the configuration also records
      the calls of [transition_to] and [perform_action], in order. *)

From stdpp Require Import base option strings list gmap.

Set Default Proof Using "Type".

(** ** Python results and exceptions *)

(** The exceptions that occur in the program.  [Exception] stands for any
    other subclass of Python's [Exception]; [KeyboardInterrupt] derives from
    [BaseException] only, so a clause [except Exception] lets it through. *)
Inductive exn : Type :=
  | NotImplementedError (msg : string)
  | SpotifyException (msg : string)
  | Exception (msg : string)
  | KeyboardInterrupt.

Definition is_SpotifyException (x : exn) : bool :=
  match x with SpotifyException _ => true | _ => false end.

Definition is_Exception (x : exn) : bool :=
  match x with KeyboardInterrupt => false | _ => true end.

(** [str(e)] *)
Definition exn_str (x : exn) : string :=
  match x with
  | NotImplementedError m | SpotifyException m | Exception m => m
  | KeyboardInterrupt => ""
  end.

Inductive result (A : Type) : Type :=
  | Returned (a : A)
  | Raised (x : exn).
Arguments Returned {A} a.
Arguments Raised {A} x.

Definition is_Returned {A} (r : result A) : bool :=
  match r with Returned _ => true | Raised _ => false end.

(** ** gestures.py *)

Inductive Gesture : Type :=
  | CLOSED_FIST
  | THUMB_UP
  | THUMB_DOWN
  | OPEN_PALM
  | POINTING_UP
  | VICTORY
  | I_LOVE_YOU.

(** [gesture.value] *)
Definition Gesture_value (g : Gesture) : string :=
  match g with
  | CLOSED_FIST => "Closed_Fist"
  | THUMB_UP => "Thumb_Up"
  | THUMB_DOWN => "Thumb_Down"
  | OPEN_PALM => "Open_Palm"
  | POINTING_UP => "Pointing_Up"
  | VICTORY => "Victory"
  | I_LOVE_YOU => "ILoveYou"
  end.

#[global] Instance Gesture_eq_dec : EqDecision Gesture.
Proof. solve_decision. Defined.

Definition Gesture_to_nat (g : Gesture) : nat :=
  match g with
  | CLOSED_FIST => 0
  | THUMB_UP => 1
  | THUMB_DOWN => 2
  | OPEN_PALM => 3
  | POINTING_UP => 4
  | VICTORY => 5
  | I_LOVE_YOU => 6
  end.

Definition Gesture_of_nat (n : nat) : Gesture :=
  match n with
  | 0 => CLOSED_FIST
  | 1 => THUMB_UP
  | 2 => THUMB_DOWN
  | 3 => OPEN_PALM
  | 4 => POINTING_UP
  | 5 => VICTORY
  | _ => I_LOVE_YOU
  end.

#[global] Instance Gesture_countable : Countable Gesture :=
  inj_countable' Gesture_to_nat Gesture_of_nat
    (fun g => match g with
              | CLOSED_FIST | THUMB_UP | THUMB_DOWN | OPEN_PALM
              | POINTING_UP | VICTORY | I_LOVE_YOU => eq_refl
              end).

Section Gestify.
(** The state of everything outside the process: the playback service. *)
Context {World : Type}.

(** What a callable can read and change.  [device_id] is the attribute
    of the one [SpotifyController]; [stdout] holds the printed lines,
    oldest first. *)
Record Env : Type := mkEnv {
  world : World;
  device_id : option string;
  stdout : list string
}.

(** A zero-argument callable returning a value of type [A]. *)
Definition Call (A : Type) : Type := Env → Env * result A.

Definition print (line : string) (e : Env) : Env :=
  mkEnv (world e) (device_id e) (stdout e ++ [line]).

Definition set_device_id (d : option string) (e : Env) : Env :=
  mkEnv (world e) d (stdout e).

(** [GestureAction]: a name and the function to execute.  The value the
    function returns is dropped by [perform_action]. *)
Record GestureAction : Type := mkGestureAction {
  action_name : string;
  action : Call unit
}.

(** [GestureAction.perform_action]: [self.action()] *)
Definition perform_action (a : GestureAction) : Call unit := action a.

(** [GestureToActionMapper] *)
Record GestureToActionMapper : Type := mkMapper {
  gesture_action_map : gmap Gesture GestureAction
}.

(** [GestureToActionMapper.__init__] *)
Definition new_mapper : GestureToActionMapper := mkMapper ∅.

(** [GestureToActionMapper.add_mapping]:
    [self.gesture_action_map[gesture] = action] *)
Definition add_mapping (gesture : Gesture) (a : GestureAction)
    (self : GestureToActionMapper) : GestureToActionMapper :=
  mkMapper (<[gesture := a]> (gesture_action_map self)).

(** [GestureToActionMapper.map_gesture_to_action] *)
Definition map_gesture_to_action (gesture : option Gesture)
    (self : GestureToActionMapper) : Call unit :=
  fun e =>
    match gesture ≫= (fun g => gesture_action_map self !! g) with
    | Some a => perform_action a e
    | None => (e, Returned tt)
    end.

(** ** states.py *)

(** The three state classes; they have no fields, so a tag is enough.
    [ActionDetectedState] is the state in which a gesture waits for
    approval, [ApprovedState] the transient state after a confirmation. *)
Inductive GestureState : Type :=
  | IdleState
  | ActionDetectedState
  | ApprovedState.

#[global] Instance GestureState_eq_dec : EqDecision GestureState.
Proof. solve_decision. Defined.

(** [ActionApprovalManager].  The mapper is the object shared with the
    application controller: a registration made later through
    [add_mapping] is seen by the manager. *)
Record ActionApprovalManager : Type := mkManager {
  state : GestureState;
  pending_gesture : option Gesture;
  mapper : GestureToActionMapper
}.

(** The calls the properties count. *)
Inductive Event : Type :=
  | EvTransition (s : GestureState)
  | EvPerform (a : GestureAction).

Record Config : Type := mkConfig {
  manager : ActionApprovalManager;
  env : Env;
  events : list Event
}.

(** Computations that mutate the manager and may raise. *)
Definition M (A : Type) : Type := Config → Config * result A.

Definition ret {A} (a : A) : M A := fun c => (c, Returned a).

Definition bind {A B} (m : M A) (k : A → M B) : M B :=
  fun c =>
    match m c with
    | (c', Returned a) => k a c'
    | (c', Raised x) => (c', Raised x)
    end.

Declare Scope py_scope.
Delimit Scope py_scope with py.
Notation "x ← m ; k" := (bind m (fun x => k))
  (at level 20, m at level 100, k at level 200, only parsing) : py_scope.
Notation "m ;; k" := (bind m (fun _ => k))
  (at level 100, k at level 200, only parsing, right associativity) : py_scope.
Local Open Scope py_scope.

Definition get_manager : M ActionApprovalManager :=
  fun c => (c, Returned (manager c)).

Definition set_state (s : GestureState) : M unit :=
  fun c =>
    let m := manager c in
    (mkConfig (mkManager s (pending_gesture m) (mapper m)) (env c) (events c),
     Returned tt).

Definition set_pending_gesture (g : option Gesture) : M unit :=
  fun c =>
    let m := manager c in
    (mkConfig (mkManager (state m) g (mapper m)) (env c) (events c),
     Returned tt).

Definition record_event (ev : Event) : M unit :=
  fun c => (mkConfig (manager c) (env c) (events c ++ [ev]), Returned tt).

Definition console (line : string) : M unit :=
  fun c => (mkConfig (manager c) (print line (env c)) (events c), Returned tt).

(** Run a callable against the environment of the configuration. *)
Definition call {A} (f : Call A) : M A :=
  fun c =>
    let '(e', r) := f (env c) in
    (mkConfig (manager c) e' (events c), r).

(** [ActionApprovalManager.__init__] *)
Definition new_manager (mp : GestureToActionMapper) : ActionApprovalManager :=
  mkManager IdleState None mp.

(** [ActionApprovalManager.transition_to] *)
Definition transition_to (s : GestureState) : M unit :=
  record_event (EvTransition s) ;; set_state s.

(** [action.perform_action()] as called from the manager *)
Definition invoke (a : GestureAction) : M unit :=
  record_event (EvPerform a) ;; call (perform_action a).

(** [ActionApprovalManager.execute_action].  A member of [Gesture] is
    truthy and so is a [GestureAction] object, so both [if]s test for
    [None]. *)
Definition execute_action : M unit :=
  self ← get_manager;
    match pending_gesture self with
    | Some g =>
        (match gesture_action_map (mapper self) !! g with
         | Some a =>
             console ("Performing action: " +:+ action_name a) ;;
             invoke a
         | None => ret tt
         end) ;;
        set_pending_gesture None
    | None => ret tt
    end.

(** [gesture in context.mapper.gesture_action_map]; the keys of the dict
    are gestures, so [None] is never in it. *)
Definition in_map (gesture : option Gesture) (mp : GestureToActionMapper) : bool :=
  match gesture with
  | Some g => bool_decide (is_Some (gesture_action_map mp !! g))
  | None => false
  end.

(** [IdleState.handle_gesture].  In the branch that prints, [gesture] is a
    key of the dict, hence a member of [Gesture], and [gesture.value] is
    its name. *)
Definition IdleState_handle_gesture (gesture : option Gesture) : M unit :=
  if bool_decide (gesture = Some CLOSED_FIST) then ret tt
  else
    context ← get_manager;
      if in_map gesture (mapper context) then
        transition_to ActionDetectedState ;;
        set_pending_gesture gesture ;;
        console ("Gesture '" +:+ from_option Gesture_value "" gesture
                   +:+ "' detected. Waiting for approval...")
      else ret tt.

(** [ActionDetectedState.handle_gesture] *)
Definition ActionDetectedState_handle_gesture (gesture : option Gesture) : M unit :=
  if bool_decide (gesture = Some CLOSED_FIST) then
    transition_to ApprovedState ;;
    execute_action
  else ret tt.

(** [ApprovedState.handle_gesture] *)
Definition ApprovedState_handle_gesture (gesture : option Gesture) : M unit :=
  transition_to IdleState.

(** [ActionApprovalManager.handle_gesture]: dispatch on the class of
    [self.state]. *)
Definition handle_gesture (gesture : option Gesture) : M unit :=
  self ← get_manager;
    match state self with
    | IdleState => IdleState_handle_gesture gesture
    | ActionDetectedState => ActionDetectedState_handle_gesture gesture
    | ApprovedState => ApprovedState_handle_gesture gesture
    end.

(** The frame loop of the application delivers one observation after
    the other; an exception that leaves [handle_gesture] leaves the loop. *)
Fixpoint handle_gestures (gestures : list (option Gesture)) : M unit :=
  match gestures with
  | [] => ret tt
  | g :: rest => handle_gesture g ;; handle_gestures rest
  end.

(** A mutation of the mapper object, seen through the manager that
    holds a reference to it. *)
Definition on_mapper (f : GestureToActionMapper → GestureToActionMapper)
    (c : Config) : Config :=
  let m := manager c in
  mkConfig (mkManager (state m) (pending_gesture m) (f (mapper m)))
           (env c) (events c).

(** [mapper.add_mapping(gesture, a)] called while the manager exists. *)
Definition register (gesture : Gesture) (a : GestureAction) : Config → Config :=
  on_mapper (add_mapping gesture a).

(** A freshly built manager over [mp], nothing recorded yet. *)
Definition start (mp : GestureToActionMapper) (e : Env) : Config :=
  mkConfig (new_manager mp) e [].

(** The actions invoked, in order. *)
Definition performed (evs : list Event) : list GestureAction :=
  omap (fun ev => match ev with EvPerform a => Some a | EvTransition _ => None end) evs.

(** The states passed to [transition_to], in order. *)
Definition transitions (evs : list Event) : list GestureState :=
  omap (fun ev => match ev with EvTransition s => Some s | EvPerform _ => None end) evs.

(** How often [transition_to] was called with state [s]. *)
Definition entered (s : GestureState) (evs : list Event) : nat :=
  length (filter (fun s' => s' = s) (transitions evs)).

(** ** spotify.py: the two decorators *)

(** [handle_spotify_errors(func)].  [name] is [func.__name__]; [none] is
    the value the wrapper returns after it caught an exception (Python's
    [None], read at the return type of [func]). *)
Definition handle_spotify_errors {A} (none : A) (name : string)
    (func : Call A) : Call A :=
  fun e =>
    match func e with
    | (e', Returned a) => (e', Returned a)
    | (e', Raised x) =>
        if is_SpotifyException x then
          (print ("Spotify error in " +:+ name +:+ ": " +:+ exn_str x) e',
           Returned none)
        else if is_Exception x then
          (print ("Unexpected error in " +:+ name +:+ ": " +:+ exn_str x) e',
           Returned none)
        else (e', Raised x)
    end.

(** [ensure_device(func)]; [get_current_device] is the controller's
    method of that name. *)
Definition ensure_device {A} (get_current_device : Call (option string))
    (func : Call A) : Call A :=
  fun e =>
    match device_id e with
    | None =>
        match get_current_device e with
        | (e', Returned d) => func (set_device_id d e')
        | (e', Raised x) => (e', Raised x)
        end
    | Some _ => func e
    end.

(** The undecorated bodies of the [SpotifyController] methods: requests
    to the playback service, whose behaviour the program does not fix. *)
Record SpotifyController : Type := mkSpotifyController {
  add_current_track_to_liked_body : Call unit;
  stop_playback_body : Call unit;
  play_next_track_body : Call unit;
  decrease_volume_body : Call unit;
  increment_volume_body : Call unit;
  mute_body : Call unit;
  unmute_body : Call unit;
  get_current_device_body : Call (option string)
}.

Section Methods.
Variable self : SpotifyController.

Definition get_current_device : Call (option string) :=
  handle_spotify_errors None "get_current_device"
    (get_current_device_body self).

Definition add_current_track_to_liked : Call unit :=
  handle_spotify_errors tt "add_current_track_to_liked"
    (add_current_track_to_liked_body self).

Definition stop_playback : Call unit :=
  handle_spotify_errors tt "stop_playback"
    (ensure_device get_current_device (stop_playback_body self)).

Definition play_next_track : Call unit :=
  handle_spotify_errors tt "play_next_track"
    (ensure_device get_current_device (play_next_track_body self)).

Definition decrease_volume : Call unit :=
  handle_spotify_errors tt "decrease_volume"
    (ensure_device get_current_device (decrease_volume_body self)).

Definition increment_volume : Call unit :=
  handle_spotify_errors tt "increment_volume"
    (increment_volume_body self).

Definition mute : Call unit :=
  handle_spotify_errors tt "mute" (mute_body self).

Definition unmute : Call unit :=
  handle_spotify_errors tt "unmute" (unmute_body self).

(** ** app.py *)

(** The local function of [add_gesture_mappings]. *)
Definition not_implemented_action : Call unit :=
  fun e => (e, Raised (NotImplementedError "Action not implemented")).

(** The six actions that control playback, as registered. *)
Definition add_to_liked_action : GestureAction :=
  mkGestureAction "Add to Liked" add_current_track_to_liked.
Definition play_next_action : GestureAction :=
  mkGestureAction "Play Next" play_next_track.
Definition stop_playback_action : GestureAction :=
  mkGestureAction "Stop Playback" stop_playback.
Definition increase_volume_action : GestureAction :=
  mkGestureAction "Increase Volume" increment_volume.
Definition mute_action : GestureAction :=
  mkGestureAction "Mute" mute.
Definition unmute_action : GestureAction :=
  mkGestureAction "Unmute" unmute.
Definition approve_action : GestureAction :=
  mkGestureAction "Approve" not_implemented_action.

Definition content_actions : list GestureAction :=
  [add_to_liked_action; play_next_action; stop_playback_action;
   increase_volume_action; mute_action; unmute_action].

(** [ApplicationController.add_gesture_mappings], as the function it
    applies to [self.mapper]: seven calls of [add_mapping], in order. *)
Definition add_gesture_mappings (mp : GestureToActionMapper) : GestureToActionMapper :=
  let mp := add_mapping THUMB_UP add_to_liked_action mp in
  let mp := add_mapping THUMB_DOWN play_next_action mp in
  let mp := add_mapping OPEN_PALM stop_playback_action mp in
  let mp := add_mapping POINTING_UP increase_volume_action mp in
  let mp := add_mapping VICTORY mute_action mp in
  let mp := add_mapping I_LOVE_YOU unmute_action mp in
  add_mapping CLOSED_FIST approve_action mp.

(** [ApplicationController.__init__], the part that concerns the
    approval cycle: the manager is built over the empty mapper and the
    registrations are made afterwards, through the shared object. *)
Definition ApplicationController_init (e : Env) : Config :=
  on_mapper add_gesture_mappings (start new_mapper e).
End Methods.

End Gestify.

Arguments Env : clear implicits.
Arguments Call : clear implicits.
Arguments GestureAction : clear implicits.
Arguments GestureToActionMapper : clear implicits.
Arguments ActionApprovalManager : clear implicits.
Arguments Event : clear implicits.
Arguments Config : clear implicits.
Arguments M : clear implicits.
Arguments SpotifyController : clear implicits.

(** ** Vocabulary of the properties *)

Section Vocabulary.
Context {World : Type}.

(** The configurations a caller can bring about from [c0]: it calls
    [handle_gesture] with any observation and goes on when the call
    returns, and it may register actions in between. *)
Inductive reachable (c0 : Config World) : Config World → Prop :=
  | reach_start : reachable c0 c0
  | reach_handle_gesture c gesture c' :
      reachable c0 c →
      handle_gesture gesture c = (c', Returned tt) →
      reachable c0 c'
  | reach_register c gesture a :
      reachable c0 c →
      reachable c0 (register gesture a c).

(** The same, when the caller also goes on after a call that raised. *)
Inductive reachable_despite_errors (c0 : Config World) : Config World → Prop :=
  | reach_err_start : reachable_despite_errors c0 c0
  | reach_err_handle_gesture c gesture :
      reachable_despite_errors c0 c →
      reachable_despite_errors c0 (handle_gesture gesture c).1.

(** The invariant of the data model: a gesture is pending exactly in
    the state that waits for approval. *)
Definition pending_iff_detected (c : Config World) : Prop :=
  is_Some (pending_gesture (manager c)) ↔
  state (manager c) = ActionDetectedState.

(** A callable that returns normally from every environment. *)
Definition never_raises {A} (f : Call World A) : Prop :=
  ∀ e, is_Returned (f e).2 = true.

(** A callable that raises nothing but subclasses of [Exception]. *)
Definition raises_only_Exception {A} (f : Call World A) : Prop :=
  ∀ e x, (f e).2 = Raised x → is_Exception x = true.
End Vocabulary.

(** ** A concrete scenario

    The world is the volume of the player, in percent.  [volume_up] is a
    well-behaved action, [unreachable_service] one whose request fails. *)

Definition volume_up_body : Call nat unit :=
  fun e => (mkEnv ((world e + 10) `min` 100) (device_id e) (stdout e), Returned tt).

Definition unreachable_service_body : Call nat unit :=
  fun e => (e, Raised (Exception "connection refused")).

Definition volume_up : GestureAction nat :=
  mkGestureAction "Increase Volume" volume_up_body.

Definition unreachable_service : GestureAction nat :=
  mkGestureAction "Play Next" unreachable_service_body.

Definition guarded_service : GestureAction nat :=
  mkGestureAction "Play Next"
    (handle_spotify_errors tt "play_next_track" unreachable_service_body).

Definition quiet_room : Env nat := mkEnv 40 None [].

Definition volume_registry : GestureToActionMapper nat :=
  add_mapping THUMB_UP volume_up new_mapper.

Definition failing_registry : GestureToActionMapper nat :=
  add_mapping THUMB_DOWN unreachable_service volume_registry.

(** A manager that waits for the approval of [g]. *)
Definition awaiting (g : Gesture) (mp : GestureToActionMapper nat) : Config nat :=
  mkConfig (mkManager ActionDetectedState (Some g) mp) quiet_room
           [EvTransition ActionDetectedState].

(** The registry after [del mapper.gesture_action_map[Gesture.THUMB_UP]]. *)
Definition emptied_registry : GestureToActionMapper nat :=
  mkMapper (delete THUMB_UP (gesture_action_map volume_registry)).

(** A manager right after a confirmation. *)
Definition just_confirmed : Config nat :=
  mkConfig (mkManager ApprovedState None volume_registry) quiet_room
           [EvTransition ActionDetectedState; EvTransition ApprovedState;
            EvPerform volume_up].

(** ** More of the program *)

(** The members of [Gesture], in the order of the class body. *)
Definition Gesture_members : list Gesture :=
  [CLOSED_FIST; THUMB_UP; THUMB_DOWN; OPEN_PALM; POINTING_UP; VICTORY;
   I_LOVE_YOU].

(** [Gesture(value)]: the member with that value; [None] stands for the
    [ValueError] raised when there is none. *)
Definition Gesture_of_value (value : string) : option Gesture :=
  List.find (fun g => bool_decide (Gesture_value g = value)) Gesture_members.

(** [gesture.name] *)
Definition Gesture_name (g : Gesture) : string :=
  match g with
  | CLOSED_FIST => "CLOSED_FIST"
  | THUMB_UP => "THUMB_UP"
  | THUMB_DOWN => "THUMB_DOWN"
  | OPEN_PALM => "OPEN_PALM"
  | POINTING_UP => "POINTING_UP"
  | VICTORY => "VICTORY"
  | I_LOVE_YOU => "I_LOVE_YOU"
  end.

(** [state.__class__.__name__] *)
Definition GestureState_class_name (s : GestureState) : string :=
  match s with
  | IdleState => "IdleState"
  | ActionDetectedState => "ActionDetectedState"
  | ApprovedState => "ApprovedState"
  end.

(** How an f-string renders [self.pending_gesture]: [str] of a member of a
    plain [Enum] is the class name, a dot and the member name. *)
Definition pending_gesture_str (g : option Gesture) : string :=
  match g with
  | Some g => "Gesture." +:+ Gesture_name g
  | None => "None"
  end.

Section Program.
Context {World : Type}.

(** [ActionApprovalManager.__repr__] *)
Definition ActionApprovalManager_repr (self : ActionApprovalManager World) : string :=
  "ApprovalManager(state=" +:+ GestureState_class_name (state self)
    +:+ ", gesture=" +:+ pending_gesture_str (pending_gesture self) +:+ ")".

(** [ApplicationController.on_gesture_recognized]: the action of the
    gesture is performed at once, without the approval cycle, by
    [self.mapper.map_gesture_to_action(gesture)].  The mapper is the one the
    manager holds; the call of [perform_action] that
    [map_gesture_to_action] makes is recorded like those of the manager. *)
Definition ApplicationController_on_gesture_recognized
    (gesture : option Gesture) : M World unit :=
  fun c =>
    match gesture ≫= (fun g => gesture_action_map (mapper (manager c)) !! g) with
    | Some a => invoke a c
    | None => (c, Returned tt)
    end.

(** *** recognition.py *)

(** A candidate the recogniser reports for a hand; only its name is read.
    The name is optional in the library's type. *)
Record Category : Type := mkCategory {
  category_name : option string
}.

(** [GestureRecognizerResult]: per hand, the candidates, best first. *)
Record GestureRecognizerResult : Type := mkGestureRecognizerResult {
  gestures : list (list Category)
}.

(** The two attributes of [GestureRecognizer] that its callback uses.
    [Image] is the type of the processed image, [R] what the registered
    callback returns. *)
Record GestureRecognizer (Image R : Type) : Type := mkGestureRecognizer {
  recognized_gesture : option Gesture;
  callback : option (GestureRecognizerResult → Image → Z → Call World R)
}.
Arguments mkGestureRecognizer {Image R} _ _.
Arguments recognized_gesture {Image R} _.
Arguments callback {Image R} _.

(** [GestureRecognizer.set_callback] *)
Definition set_callback {Image R}
    (cb : GestureRecognizerResult → Image → Z → Call World R)
    (self : GestureRecognizer Image R) : GestureRecognizer Image R :=
  mkGestureRecognizer (recognized_gesture self) (Some cb).

(** The last statement of [on_gesture_recognized]: call the callback if
    one is set and return what it returns. *)
Definition run_callback {Image R} (self : GestureRecognizer Image R)
    (res : GestureRecognizerResult) (output_image : Image) (timestamp_ms : Z)
    (e : Env World) : GestureRecognizer Image R * Env World * result (option R) :=
  match callback self with
  | Some cb =>
      match cb res output_image timestamp_ms e with
      | (e', Returned v) => (self, e', Returned (Some v))
      | (e', Raised x) => (self, e', Raised x)
      end
  | None => (self, e, Returned None)
  end.

(** [GestureRecognizer.on_gesture_recognized]; [res] is the argument
    [result].  [result.gestures[0][0]]
    raises [IndexError] when the first hand has no candidate; nothing has
    been assigned then.  [Gesture(None)] raises [ValueError] like any other
    value that no member has. *)
Definition GestureRecognizer_on_gesture_recognized {Image R}
    (self : GestureRecognizer Image R)
    (res : GestureRecognizerResult) (output_image : Image) (timestamp_ms : Z)
    (e : Env World) : GestureRecognizer Image R * Env World * result (option R) :=
  match gestures res with
  | hand :: _ =>
      match hand with
      | top :: _ =>
          run_callback
            (mkGestureRecognizer (category_name top ≫= Gesture_of_value)
                                 (callback self))
            res output_image timestamp_ms e
      | [] => (self, e, Raised (Exception "list index out of range"))
      end
  | [] =>
      run_callback (mkGestureRecognizer None (callback self))
        res output_image timestamp_ms e
  end.

(** *** spotify.py: the volume methods *)

(** The two uses the volume methods make of the client [self.sp].
    [sp_current_volume_percent] is the expression
    [self.sp.current_playback()['device']['volume_percent']]: it yields
    the integer the service reports, or raises when the request fails or
    the answer has no such field.  [sp_volume n] is [self.sp.volume(n)]. *)
Record Spotify : Type := mkSpotify {
  sp_current_volume_percent : Call World Z;
  sp_volume : Z → Call World unit
}.

(** The body of [SpotifyController.decrease_volume] *)
Definition decrease_volume_impl (sp : Spotify) : Call World unit :=
  fun e =>
    match sp_current_volume_percent sp e with
    | (e', Returned current_volume) =>
        let new_volume := Z.max 0 (current_volume - 10) in
        sp_volume sp new_volume e'
    | (e', Raised x) => (e', Raised x)
    end.

(** The body of [SpotifyController.increment_volume] *)
Definition increment_volume_impl (sp : Spotify) : Call World unit :=
  fun e =>
    match sp_current_volume_percent sp e with
    | (e', Returned current_volume) =>
        let new_volume := Z.min 100 (current_volume + 10) in
        sp_volume sp new_volume e'
    | (e', Raised x) => (e', Raised x)
    end.

(** The bodies of [SpotifyController.mute] and [SpotifyController.unmute] *)
Definition mute_impl (sp : Spotify) : Call World unit := sp_volume sp 0.
Definition unmute_impl (sp : Spotify) : Call World unit := sp_volume sp 100.

(** A controller whose volume methods have these bodies over the client
    [sp]; the other bodies are those of [rest]. *)
Definition with_client (sp : Spotify) (rest : SpotifyController World)
    : SpotifyController World :=
  mkSpotifyController
    (add_current_track_to_liked_body rest)
    (stop_playback_body rest)
    (play_next_track_body rest)
    (decrease_volume_impl sp)
    (increment_volume_impl sp)
    (mute_impl sp)
    (unmute_impl sp)
    (get_current_device_body rest).

(** *** spotify.py: the singleton *)

Section Singleton.
(** The client object and the two calls of [__init__] that leave the
    program: [load_dotenv()] and the construction of the client. *)
Context {Client : Type}.
Variable load_dotenv : Call World unit.
Variable new_client : Call World Client.

(** [SpotifyController.__init__]; [instance] is the class attribute
    [_instance].  A controller is identified with its client; its
    [device_id] starts as [None]. *)
Definition SpotifyController_new (instance : option Client) : Call World Client :=
  fun e =>
    match load_dotenv e with
    | (e1, Returned _) =>
        match instance with
        | Some _ => (e1, Raised (Exception "SpotifyController is a singleton!"))
        | None =>
            match new_client e1 with
            | (e2, Returned sp) => (set_device_id None e2, Returned sp)
            | (e2, Raised x) => (e2, Raised x)
            end
        end
    | (e1, Raised x) => (e1, Raised x)
    end.

(** [SpotifyController.get_instance]; returns the new value of
    [_instance] as well. *)
Definition get_instance (instance : option Client) (e : Env World)
    : option Client * Env World * result Client :=
  match instance with
  | None =>
      match SpotifyController_new None e with
      | (e', Returned self) => (Some self, e', Returned self)
      | (e', Raised x) => (None, e', Raised x)
      end
  | Some self => (Some self, e, Returned self)
  end.
End Singleton.

(** *** Vocabulary of the further properties *)

(** [a] is the action the registry binds to a gesture other than the
    closed fist that is among the observations [seen]. *)
Definition action_of_observed (mp : GestureToActionMapper World)
    (seen : list (option Gesture)) (a : GestureAction World) : Prop :=
  ∃ g, g ≠ CLOSED_FIST ∧ Some g ∈ seen ∧ gesture_action_map mp !! g = Some a.

(** What a run over observations among [seen] keeps true: the registry
    is [mp], a pending gesture was observed and is not the closed fist, and
    every action performed so far is that of an observed gesture. *)
Definition observed_inv (mp : GestureToActionMapper World)
    (seen : list (option Gesture)) (c : Config World) : Prop :=
  mapper (manager c) = mp ∧
  (∀ g, pending_gesture (manager c) = Some g →
        g ≠ CLOSED_FIST ∧ Some g ∈ seen) ∧
  Forall (action_of_observed mp seen) (performed (events c)).

(** How many of the observations are the closed fist. *)
Definition fists (os : list (option Gesture)) : nat :=
  length (filter (fun o => o = Some CLOSED_FIST) os).

(** An observation an idle manager does not react to. *)
Definition ignored_when_idle (mp : GestureToActionMapper World)
    (o : option Gesture) : Prop :=
  o = Some CLOSED_FIST ∨ in_map o mp = false.

(** What a confirmed cycle for [g] does to the environment: the notice
    of the detection is printed, then the notice of the action, then the
    function of the action [a] is run. *)
Definition confirmation (g : Gesture) (a : GestureAction World) : Call World unit :=
  fun e =>
    action a
      (print ("Performing action: " +:+ action_name a)
         (print ("Gesture '" +:+ Gesture_value g
                   +:+ "' detected. Waiting for approval...") e)).

(** The environment after the confirmed cycles of the gestures [gs], in
    order, each with the action the registry [mp] has for it. *)
Definition confirmations (mp : GestureToActionMapper World)
    (gs : list (Gesture * option Gesture)) (e : Env World) : Env World :=
  foldl (fun e '(g, _) =>
           match gesture_action_map mp !! g with
           | Some a => (confirmation g a e).1
           | None => e
           end) e gs.

(** One approval cycle per pair: the gesture, the closed fist, and the
    observation that follows the confirmation. *)
Definition cycles (gs : list (Gesture * option Gesture)) : list (option Gesture) :=
  gs ≫= (fun '(g, o) => [Some g; Some CLOSED_FIST; o]).

(** The service accepts a volume between 0 and 100, keeps it and
    reports it. *)
Definition keeps_volume (sp : Spotify) : Prop :=
  ∀ n e, (0 ≤ n ≤ 100)%Z →
         (sp_volume sp n e).2 = Returned tt ∧
         sp_current_volume_percent sp (sp_volume sp n e).1
         = ((sp_volume sp n e).1, Returned n).
End Program.

Arguments Spotify : clear implicits.
Arguments GestureRecognizer : clear implicits.
Arguments mkGestureRecognizer {World Image R} _ _.
Arguments recognized_gesture {World Image R} _.
Arguments callback {World Image R} _.

(** *** The concrete scenario, continued *)

(** A player that does what it is told: its world is the volume. *)
Definition player : Spotify nat :=
  mkSpotify
    (fun e => (e, Returned (Z.of_nat (world e))))
    (fun n e => (mkEnv (Z.to_nat n) (device_id e) (stdout e), Returned tt)).

(** A player that cannot be reached. *)
Definition unreachable_player : Spotify nat :=
  mkSpotify
    (fun e => (e, Raised (SpotifyException "http status: 503")))
    (fun n e => (e, Raised (SpotifyException "http status: 503"))).

(** A controller whose other requests succeed without any effect. *)
Definition player_controller (sp : Spotify nat) : SpotifyController nat :=
  let ok : Call nat unit := fun e => (e, Returned tt) in
  with_client sp
    (mkSpotifyController ok ok ok ok ok ok ok (fun e => (e, Returned None))).

(** A controller that cannot find out the device: the lookup fails,
    every other request succeeds without any effect. *)
Definition offline_controller : SpotifyController nat :=
  let ok : Call nat unit := fun e => (e, Returned tt) in
  mkSpotifyController ok ok ok ok ok ok ok
    (fun e => (e, Raised (SpotifyException "http status: 503"))).

(** A room in which the player is nearly at full volume. *)
Definition loud_room : Env nat := mkEnv 95 None [].

(** What the recogniser reports for one hand showing a thumb up. *)
Definition thumb_up_seen : GestureRecognizerResult :=
  mkGestureRecognizerResult
    [[mkCategory (Some "Thumb_Up"); mkCategory (Some "Victory")]].

(** A recogniser without callback that has seen nothing yet. *)
Definition fresh_recognizer : GestureRecognizer nat unit unit :=
  mkGestureRecognizer None None.

(** ** The transition table of [handle_gesture] *)

Section Transitions.
Context {World : Type}.
Implicit Types (c : Config World) (mp : GestureToActionMapper World).
Implicit Types (a : GestureAction World) (e : Env World).
Implicit Types (g : Gesture) (o : option Gesture).

Local Ltac unfold_py :=
  unfold handle_gesture, IdleState_handle_gesture,
    ActionDetectedState_handle_gesture, ApprovedState_handle_gesture,
    execute_action, transition_to, invoke, perform_action, call, console,
    record_event, set_state, set_pending_gesture, get_manager, bind, ret;
  simpl.

Lemma not_fist_decide o :
  o ≠ Some CLOSED_FIST → bool_decide (o = Some CLOSED_FIST) = false.
Proof. intros ?. by apply bool_decide_eq_false. Qed.

Lemma in_map_mapped g a mp :
  gesture_action_map mp !! g = Some a → in_map (Some g) mp = true.
Proof. intros Hg. apply bool_decide_eq_true. by rewrite Hg. Qed.

Lemma in_map_unmapped g mp :
  gesture_action_map mp !! g = None → in_map (Some g) mp = false.
Proof.
  intros Hg. apply bool_decide_eq_false. rewrite Hg. by intros [? ?].
Qed.

(** Idle, approval gesture: nothing happens. *)
Lemma idle_fist pg mp e evs :
  handle_gesture (Some CLOSED_FIST) (mkConfig (mkManager IdleState pg mp) e evs)
  = (mkConfig (mkManager IdleState pg mp) e evs, Returned tt).
Proof. reflexivity. Qed.

(** Idle, an observation that is not a key of the dict: nothing happens. *)
Lemma idle_unmapped o pg mp e evs :
  in_map o mp = false →
  handle_gesture o (mkConfig (mkManager IdleState pg mp) e evs)
  = (mkConfig (mkManager IdleState pg mp) e evs, Returned tt).
Proof.
  intros Hin.
  unfold handle_gesture, IdleState_handle_gesture, bind, get_manager, ret.
  cbn [manager state]. case_bool_decide; [done|].
  cbn [manager mapper]. by rewrite Hin.
Qed.

(** Idle, a mapped gesture other than the fist: it becomes pending. *)
Lemma idle_mapped g a pg mp e evs :
  g ≠ CLOSED_FIST →
  gesture_action_map mp !! g = Some a →
  handle_gesture (Some g) (mkConfig (mkManager IdleState pg mp) e evs)
  = (mkConfig (mkManager ActionDetectedState (Some g) mp)
       (print ("Gesture '" +:+ Gesture_value g
                 +:+ "' detected. Waiting for approval...") e)
       (evs ++ [EvTransition ActionDetectedState]),
     Returned tt).
Proof.
  intros Hg Ha.
  unfold handle_gesture, IdleState_handle_gesture, bind, get_manager, ret.
  cbn [manager state]. rewrite not_fist_decide by congruence.
  cbn [manager mapper]. by rewrite (in_map_mapped _ _ _ Ha).
Qed.

(** Waiting for approval, anything but the fist: nothing happens. *)
Lemma detected_other o pg mp e evs :
  o ≠ Some CLOSED_FIST →
  handle_gesture o (mkConfig (mkManager ActionDetectedState pg mp) e evs)
  = (mkConfig (mkManager ActionDetectedState pg mp) e evs, Returned tt).
Proof. intros Ho. unfold_py. by rewrite not_fist_decide. Qed.

(** Waiting for approval, the fist, the pending gesture has an action:
    the action runs, and its outcome decides how the call ends. *)
Lemma detected_fist_mapped g a mp e evs :
  gesture_action_map mp !! g = Some a →
  handle_gesture (Some CLOSED_FIST)
    (mkConfig (mkManager ActionDetectedState (Some g) mp) e evs)
  = let '(e', r) := action a (print ("Performing action: " +:+ action_name a) e) in
    (mkConfig
       (mkManager ApprovedState
          (match r with Returned _ => None | Raised _ => Some g end) mp)
       e'
       ((evs ++ [EvTransition ApprovedState]) ++ [EvPerform a]),
     r).
Proof.
  intros Ha. unfold_py. rewrite Ha. simpl.
  destruct (action a _) as [e' [[]|x]]; reflexivity.
Qed.

(** Waiting for approval, the fist, no action for the pending gesture. *)
Lemma detected_fist_unmapped g mp e evs :
  gesture_action_map mp !! g = None →
  handle_gesture (Some CLOSED_FIST)
    (mkConfig (mkManager ActionDetectedState (Some g) mp) e evs)
  = (mkConfig (mkManager ApprovedState None mp) e
       (evs ++ [EvTransition ApprovedState]),
     Returned tt).
Proof. intros Ha. unfold_py. by rewrite Ha. Qed.

(** Waiting for approval, the fist, nothing pending. *)
Lemma detected_fist_nothing mp e evs :
  handle_gesture (Some CLOSED_FIST)
    (mkConfig (mkManager ActionDetectedState None mp) e evs)
  = (mkConfig (mkManager ApprovedState None mp) e
       (evs ++ [EvTransition ApprovedState]),
     Returned tt).
Proof. reflexivity. Qed.

(** After an approval: any observation leads back to Idle. *)
Lemma approved_any o pg mp e evs :
  handle_gesture o (mkConfig (mkManager ApprovedState pg mp) e evs)
  = (mkConfig (mkManager IdleState pg mp) e (evs ++ [EvTransition IdleState]),
     Returned tt).
Proof. reflexivity. Qed.

Lemma handle_gestures_cons o os c :
  handle_gestures (o :: os) c
  = match handle_gesture o c with
    | (c', Returned _) => handle_gestures os c'
    | (c', Raised x) => (c', Raised x)
    end.
Proof. reflexivity. Qed.

Lemma performed_app (evs1 evs2 : list (Event World)) :
  performed (evs1 ++ evs2) = performed evs1 ++ performed evs2.
Proof. unfold performed. apply omap_app. Qed.

Lemma transitions_app (evs1 evs2 : list (Event World)) :
  transitions (evs1 ++ evs2) = transitions evs1 ++ transitions evs2.
Proof. unfold transitions. apply omap_app. Qed.
End Transitions.

(** ** Properties of the approval cycle *)

Section Properties.
Context {World : Type}.
Implicit Types (c : Config World) (mp : GestureToActionMapper World).
Implicit Types (a : GestureAction World) (e : Env World).
Implicit Types (g G : Gesture) (o : option Gesture).

(** Any run of observations without a fist leaves a waiting manager as
    it is. *)
Lemma detected_noise os pg mp e evs :
  Forall (fun o => o ≠ Some CLOSED_FIST) os →
  handle_gestures os (mkConfig (mkManager ActionDetectedState pg mp) e evs)
  = (mkConfig (mkManager ActionDetectedState pg mp) e evs, Returned tt).
Proof.
  induction 1 as [|o os Ho _ IH]; [done|].
  by rewrite handle_gestures_cons, detected_other.
Qed.

(** Any run of fists leaves an idle manager as it is. *)
Lemma idle_fists n pg mp e evs :
  handle_gestures (replicate n (Some CLOSED_FIST))
    (mkConfig (mkManager IdleState pg mp) e evs)
  = (mkConfig (mkManager IdleState pg mp) e evs, Returned tt).
Proof.
  induction n as [|n IH]; [done|].
  by rewrite replicate_S, handle_gestures_cons, idle_fist.
Qed.

(** The decorator turns every subclass of [Exception] into a printed
    line and a normal return. *)
Lemma handle_spotify_errors_contains {A} (none : A) name (func : Call World A) :
  raises_only_Exception func →
  never_raises (handle_spotify_errors none name func).
Proof.
  intros Hf e. unfold handle_spotify_errors.
  specialize (Hf e). destruct (func e) as [e' [v|x]]; [done|].
  simpl in Hf. rewrite (Hf x eq_refl). by destruct (is_SpotifyException x).
Qed.

(** C9. For every registry, also one that binds the approval gesture
    itself, a closed fist observed by an idle manager with nothing
    pending changes nothing: the state stays Idle, nothing becomes
    pending, no action is invoked, nothing is printed; and the same holds
    for any number of fists in a row. *)
Theorem idle_ignores_approval mp e evs (n : nat) :
  let c := mkConfig (new_manager mp) e evs in
  handle_gesture (Some CLOSED_FIST) c = (c, Returned tt) ∧
  handle_gestures (replicate n (Some CLOSED_FIST)) c = (c, Returned tt) ∧
  state (manager (handle_gestures (replicate n (Some CLOSED_FIST)) c).1)
    = IdleState ∧
  pending_gesture (manager (handle_gestures (replicate n (Some CLOSED_FIST)) c).1)
    = None ∧
  performed (events (handle_gestures (replicate n (Some CLOSED_FIST)) c).1)
    = performed evs.
Proof.
  intros c. unfold c, new_manager.
  rewrite idle_fist, idle_fists. done.
Qed.

(** C5. While a gesture G waits for approval, any single observation
    other than the closed fist (another mapped gesture, an unmapped one,
    or none) leaves the whole configuration untouched: G is still
    pending, the state is still the waiting state and no action is
    invoked. *)
Theorem pending_survives_noise c G o :
  state (manager c) = ActionDetectedState →
  pending_gesture (manager c) = Some G →
  o ≠ Some CLOSED_FIST →
  handle_gesture o c = (c, Returned tt) ∧
  pending_gesture (manager (handle_gesture o c).1) = Some G ∧
  state (manager (handle_gesture o c).1) = ActionDetectedState ∧
  performed (events (handle_gesture o c).1) = performed (events c).
Proof.
  destruct c as [[st pg mp] e evs]; simpl. intros -> -> Ho.
  by rewrite detected_other.
Qed.

(** C6. For a mapped gesture G other than the closed fist and N >= 1,
    N observations of G from the initial state call
    [transition_to(ActionDetectedState)] exactly once, namely on the
    first observation, leave G pending, and invoke no action. *)
Theorem held_gesture_detected_once mp G a e (N : nat) :
  G ≠ CLOSED_FIST →
  gesture_action_map mp !! G = Some a →
  1 ≤ N →
  let first := handle_gesture (Some G) (start mp e) in
  let r := handle_gestures (replicate N (Some G)) (start mp e) in
  events first.1 = [EvTransition ActionDetectedState] ∧
  r = first ∧
  r.2 = Returned tt ∧
  state (manager r.1) = ActionDetectedState ∧
  pending_gesture (manager r.1) = Some G ∧
  entered ActionDetectedState (events r.1) = 1 ∧
  performed (events r.1) = [] ∧
  world (env r.1) = world e.
Proof.
  intros HG Ha HN first r. unfold r, first, start, new_manager.
  destruct N as [|n]; [lia|].
  rewrite replicate_S, handle_gestures_cons.
  rewrite (idle_mapped _ _ _ _ _ _ HG Ha).
  rewrite detected_noise; [done|].
  apply Forall_replicate. congruence.
Qed.

(** C10. In the state that follows a confirmation, the next observation,
    whatever it is, is used up by the reset: the call returns, the state
    becomes Idle, the pending gesture is left as it was (so the observed
    gesture does not become pending), and no action is invoked. *)
Theorem observation_after_confirmation_only_resets c o :
  state (manager c) = ApprovedState →
  let r := handle_gesture o c in
  r.2 = Returned tt ∧
  state (manager r.1) = IdleState ∧
  pending_gesture (manager r.1) = pending_gesture (manager c) ∧
  mapper (manager r.1) = mapper (manager c) ∧
  env r.1 = env c ∧
  events r.1 = events c ++ [EvTransition IdleState] ∧
  performed (events r.1) = performed (events c).
Proof.
  destruct c as [[st pg mp] e evs]; simpl. intros ->.
  rewrite approved_any; simpl.
  rewrite performed_app, app_nil_r. done.
Qed.

(** C7 (amended). When a gesture G waits for approval and the registry
    has no entry for G (any more), the closed fist invokes no action and
    raises nothing; it clears the pending gesture and moves the manager
    to the transient Approved state.  The state is Idle after the next
    observation, whatever that is. *)
Theorem missing_binding_is_safe c G o :
  state (manager c) = ActionDetectedState →
  pending_gesture (manager c) = Some G →
  gesture_action_map (mapper (manager c)) !! G = None →
  let r := handle_gesture (Some CLOSED_FIST) c in
  let r' := handle_gesture o r.1 in
  r.2 = Returned tt ∧
  performed (events r.1) = performed (events c) ∧
  env r.1 = env c ∧
  pending_gesture (manager r.1) = None ∧
  state (manager r.1) = ApprovedState ∧
  r'.2 = Returned tt ∧
  performed (events r'.1) = performed (events c) ∧
  pending_gesture (manager r'.1) = None ∧
  state (manager r'.1) = IdleState.
Proof.
  destruct c as [[st pg mp] e evs]; simpl. intros -> -> Hnone.
  rewrite (detected_fist_unmapped _ _ _ _ Hnone); simpl.
  rewrite !performed_app, !app_nil_r. done.
Qed.

(** C1 (amended). For every registry that maps G (not the closed fist)
    to an action, the sequence [G, closed fist] from the initial state
    invokes that action exactly once: the function of the action is run,
    once, on the environment in which the two notices have been printed,
    the run ends the way that call ends and leaves the environment that
    call leaves, and nothing else is called.  After the second event the
    manager is in the transient Approved state.  If the action returned,
    nothing is pending then, and a third observation of any kind brings
    the state to Idle without a further invocation or effect. *)
Theorem confirm_executes_once mp G a e o :
  G ≠ CLOSED_FIST →
  gesture_action_map mp !! G = Some a →
  let r := handle_gestures [Some G; Some CLOSED_FIST] (start mp e) in
  let r' := handle_gestures [Some G; Some CLOSED_FIST; o] (start mp e) in
  let out :=
    action a
      (print ("Performing action: " +:+ action_name a)
         (print ("Gesture '" +:+ Gesture_value G
                   +:+ "' detected. Waiting for approval...") e)) in
  events r.1 = [EvTransition ActionDetectedState;
                EvTransition ApprovedState; EvPerform a] ∧
  performed (events r.1) = [a] ∧
  r.2 = out.2 ∧
  env r.1 = out.1 ∧
  state (manager r.1) = ApprovedState ∧
  performed (events r'.1) = [a] ∧
  env r'.1 = out.1 ∧
  (r.2 = Returned tt →
     pending_gesture (manager r.1) = None ∧
     r'.2 = Returned tt ∧
     state (manager r'.1) = IdleState ∧
     pending_gesture (manager r'.1) = None).
Proof.
  intros HG Ha r r' out. unfold r, r', out, start, new_manager.
  rewrite !handle_gestures_cons.
  rewrite (idle_mapped _ _ _ _ _ _ HG Ha). cbv beta iota.
  rewrite !handle_gestures_cons.
  rewrite (detected_fist_mapped _ _ _ _ _ Ha).
  destruct (action a _) as [e' [[]|x]]; cbv beta iota.
  - rewrite handle_gestures_cons, approved_any. by repeat split.
  - by repeat split.
Qed.

(** C2 (amended). When the closed fist confirms a pending gesture G
    whose action is [a], [handle_gesture] ends the way the call of [a]
    ends: an exception raised by [a] leaves [handle_gesture] unchanged.
    Either way [a] has been invoked once and the manager is in the
    transient Approved state; the pending gesture is cleared if [a]
    returned and is still G if [a] raised.  An action whose function is
    wrapped by [handle_spotify_errors] over a body that raises only
    subclasses of [Exception] returns, so confirming it returns and clears
    the pending gesture. *)
Theorem failing_action_propagates c G a :
  state (manager c) = ActionDetectedState →
  pending_gesture (manager c) = Some G →
  gesture_action_map (mapper (manager c)) !! G = Some a →
  let out := action a (print ("Performing action: " +:+ action_name a) (env c)) in
  let r := handle_gesture (Some CLOSED_FIST) c in
  r.2 = out.2 ∧
  env r.1 = out.1 ∧
  performed (events r.1) = performed (events c) ++ [a] ∧
  state (manager r.1) = ApprovedState ∧
  pending_gesture (manager r.1)
    = (if is_Returned out.2 then None else Some G) ∧
  (∀ name body,
     action a = handle_spotify_errors tt name body →
     raises_only_Exception body →
     r.2 = Returned tt ∧ pending_gesture (manager r.1) = None).
Proof.
  destruct c as [[st pg mp] e evs].
  intros Hst Hpg Ha out r. simpl in Hst, Hpg, Ha. subst st pg.
  unfold r, out. cbn [env events].
  rewrite (detected_fist_mapped _ _ _ _ _ Ha).
  pose proof (handle_spotify_errors_contains tt) as Hwrap.
  destruct (action a _) as [e' [[]|x]] eqn:Hout; simpl;
    rewrite !performed_app, app_nil_r; simpl.
  - by repeat split.
  - split_and!; try done.
    intros name body Hname Hbody. exfalso.
    specialize (Hwrap name body Hbody
                  (print ("Performing action: " +:+ action_name a) e)).
    cbn [env] in Hout. rewrite <- Hname, Hout in Hwrap. done.
Qed.

(** A call of [handle_gesture] that returns keeps the invariant. *)
Lemma handle_gesture_preserves_invariant c o c' :
  pending_iff_detected c →
  handle_gesture o c = (c', Returned tt) →
  pending_iff_detected c'.
Proof.
  destruct c as [[st pg mp] e evs]. unfold pending_iff_detected; simpl.
  intros Hinv Hstep. destruct st.
  - (* Idle *)
    destruct (decide (o = Some CLOSED_FIST)) as [->|Ho].
    { rewrite idle_fist in Hstep. by simplify_eq. }
    destruct (in_map o mp) eqn:Hin.
    + destruct o as [g|]; [|done].
      apply bool_decide_eq_true in Hin as [a Ha].
      rewrite (idle_mapped g a) in Hstep by congruence.
      simplify_eq; simpl. split; eauto.
    + rewrite idle_unmapped in Hstep by done. by simplify_eq.
  - (* waiting for approval *)
    destruct (decide (o = Some CLOSED_FIST)) as [->|Ho].
    2: { rewrite detected_other in Hstep by done. by simplify_eq. }
    destruct pg as [g|].
    2: { rewrite detected_fist_nothing in Hstep. simplify_eq; simpl.
         split; [by intros [? ?]|done]. }
    destruct (gesture_action_map mp !! g) as [a|] eqn:Ha.
    + rewrite (detected_fist_mapped _ _ _ _ _ Ha) in Hstep.
      destruct (action a _) as [e' [[]|x]]; simplify_eq; simpl.
      split; [by intros [? ?]|done].
    + rewrite (detected_fist_unmapped _ _ _ _ Ha) in Hstep.
      simplify_eq; simpl. split; [by intros [? ?]|done].
  - (* approved *)
    rewrite approved_any in Hstep. simplify_eq; simpl.
    split; [|done]. intros Hpg. by apply Hinv in Hpg.
Qed.

(** C4 (amended). In every configuration reached from the initial one
    by calls of [handle_gesture] that returned (with registrations in
    between, if any), a gesture is pending if and only if the manager is
    in the state that waits for approval. *)
Theorem pending_iff_detected_invariant mp e c :
  reachable (start mp e) c →
  pending_iff_detected c.
Proof.
  induction 1 as [|c o c' _ IH Hstep|c g a _ IH].
  - unfold pending_iff_detected; simpl. split; [by intros [? ?]|done].
  - by eapply handle_gesture_preserves_invariant.
  - destruct c as [[st pg mp'] e' evs]. exact IH.
Qed.

(** The closed fist never becomes the pending gesture, and a call whose
    pending action cannot raise returns. *)
Lemma handle_gesture_safe c o :
  pending_gesture (manager c) ≠ Some CLOSED_FIST →
  (∀ g a, g ≠ CLOSED_FIST →
          gesture_action_map (mapper (manager c)) !! g = Some a →
          never_raises (action a)) →
  (handle_gesture o c).2 = Returned tt ∧
  pending_gesture (manager (handle_gesture o c).1) ≠ Some CLOSED_FIST ∧
  mapper (manager (handle_gesture o c).1) = mapper (manager c).
Proof.
  destruct c as [[st pg mp] e evs]; simpl. intros Hpg Hsafe. destruct st.
  - destruct (decide (o = Some CLOSED_FIST)) as [->|Ho].
    { by rewrite idle_fist. }
    destruct (in_map o mp) eqn:Hin.
    + destruct o as [g|]; [|done].
      apply bool_decide_eq_true in Hin as [a Ha].
      rewrite (idle_mapped g a) by congruence. done.
    + by rewrite idle_unmapped.
  - destruct (decide (o = Some CLOSED_FIST)) as [->|Ho].
    2: { by rewrite detected_other. }
    destruct pg as [g|]; [|by rewrite detected_fist_nothing].
    destruct (gesture_action_map mp !! g) as [a|] eqn:Ha.
    + rewrite (detected_fist_mapped _ _ _ _ _ Ha).
      assert (g ≠ CLOSED_FIST) as Hg by congruence.
      specialize (Hsafe g a Hg Ha
                    (print ("Performing action: " +:+ action_name a) e)).
      destruct (action a _) as [e' [[]|x]]; done.
    + by rewrite (detected_fist_unmapped _ _ _ _ Ha).
  - by rewrite approved_any.
Qed.

Lemma handle_gestures_safe os c :
  pending_gesture (manager c) ≠ Some CLOSED_FIST →
  (∀ g a, g ≠ CLOSED_FIST →
          gesture_action_map (mapper (manager c)) !! g = Some a →
          never_raises (action a)) →
  (handle_gestures os c).2 = Returned tt.
Proof.
  revert c. induction os as [|o os IH]; intros c Hpg Hsafe; [done|].
  rewrite handle_gestures_cons.
  destruct (handle_gesture_safe c o Hpg Hsafe) as (Hr & Hpg' & Hmp).
  destruct (handle_gesture o c) as [c' [[]|x]]; simpl in *; [|done].
  apply IH; [done|]. by rewrite Hmp.
Qed.

(** C8. Registering A1 and then A2 for the same gesture G leaves exactly
    the registry that registering A2 alone gives: G is bound to A2 and
    every other binding is as before.  A following cycle [G, closed fist]
    invokes A2 once and nothing else: the function of A2 is run on the
    environment in which the two notices have been printed, and the cycle
    ends the way that call ends, in the environment it leaves.  (When G is
    the closed fist itself the cycle calls nothing and changes nothing.)
    The function of A1 is not called. *)
Theorem last_registration_wins mp G A1 A2 e :
  let mp' := add_mapping G A2 (add_mapping G A1 mp) in
  let r := handle_gestures [Some G; Some CLOSED_FIST] (start mp' e) in
  let out :=
    action A2
      (print ("Performing action: " +:+ action_name A2)
         (print ("Gesture '" +:+ Gesture_value G
                   +:+ "' detected. Waiting for approval...") e)) in
  mp' = add_mapping G A2 mp ∧
  gesture_action_map mp' !! G = Some A2 ∧
  (∀ g, g ≠ G → gesture_action_map mp' !! g = gesture_action_map mp !! g) ∧
  register G A2 (register G A1 (start mp e)) = start mp' e ∧
  performed (events r.1) = (if decide (G = CLOSED_FIST) then [] else [A2]) ∧
  (∀ a, a ∈ performed (events r.1) → a = A2) ∧
  (if decide (G = CLOSED_FIST)
   then r = (start mp' e, Returned tt)
   else r.2 = out.2 ∧ env r.1 = out.1).
Proof.
  intros mp' r out.
  assert (gesture_action_map mp' !! G = Some A2) as Hlook.
  { unfold mp', add_mapping; simpl. apply lookup_insert_eq. }
  assert (performed (events r.1)
          = (if decide (G = CLOSED_FIST) then [] else [A2]) ∧
          (if decide (G = CLOSED_FIST)
           then r = (start mp' e, Returned tt)
           else r.2 = out.2 ∧ env r.1 = out.1)) as [Hperf Hrun].
  { unfold r, out, start, new_manager. case_decide as HG.
    - subst G. rewrite handle_gestures_cons, idle_fist. cbv beta iota.
      by rewrite handle_gestures_cons, idle_fist.
    - rewrite handle_gestures_cons, (idle_mapped _ _ _ _ _ _ HG Hlook).
      cbv beta iota.
      rewrite handle_gestures_cons, (detected_fist_mapped _ _ _ _ _ Hlook).
      by destruct (action A2 _) as [e' [[]|x]]. }
  split_and!; try done.
  - unfold mp', add_mapping; simpl. f_equal. apply insert_insert_eq.
  - intros g Hg. unfold mp', add_mapping; simpl.
    by rewrite !lookup_insert_ne.
  - intros a. rewrite Hperf.
    destruct (decide (G = CLOSED_FIST)).
    + by intros ?%elem_of_nil.
    + by intros ->%list_elem_of_singleton.
Qed.
End Properties.

(** ** The registry built at start-up *)

Section Startup.
Context {World : Type}.
Variable sp : SpotifyController World.
Implicit Types (e : Env World) (g : Gesture).

(** The seven entries of the start-up registry. *)
Lemma startup_lookup g :
  gesture_action_map (add_gesture_mappings sp new_mapper) !! g
  = Some match g with
         | CLOSED_FIST => approve_action
         | THUMB_UP => add_to_liked_action sp
         | THUMB_DOWN => play_next_action sp
         | OPEN_PALM => stop_playback_action sp
         | POINTING_UP => increase_volume_action sp
         | VICTORY => mute_action sp
         | I_LOVE_YOU => unmute_action sp
         end.
Proof.
  unfold add_gesture_mappings, add_mapping, new_mapper; simpl.
  destruct g; by simplify_map_eq.
Qed.

Lemma approve_not_content : approve_action ∉ content_actions sp.
Proof.
  unfold content_actions, approve_action. intros Hin.
  repeat (apply elem_of_cons in Hin as [Heq|Hin]; [discriminate Heq|]).
  by apply elem_of_nil in Hin.
Qed.

(** [get_current_device] and the device check in front of a body let
    through only what the bodies themselves raise. *)
Lemma ensure_device_raises_only_Exception {A} (body : Call World A) :
  raises_only_Exception (get_current_device_body sp) →
  raises_only_Exception body →
  raises_only_Exception (ensure_device (get_current_device sp) body).
Proof.
  intros Hdev Hbody e x. unfold ensure_device.
  destruct (device_id e); [apply Hbody|].
  pose proof (handle_spotify_errors_contains None "get_current_device"
                _ Hdev e) as Hret.
  fold (get_current_device sp) in Hret.
  destruct (get_current_device sp e) as [e' [d|y]]; [apply Hbody|done].
Qed.

(** C3. After the start-up registration the closed fist is bound to the
    placeholder action named Approve, which is none of the six
    playback actions: it touches nothing and raises NotImplementedError.
    Conversely no gesture bound to a playback action is the closed fist. *)
Theorem fist_bound_to_no_content_action e :
  let mp := mapper (manager (ApplicationController_init sp e)) in
  mp = add_gesture_mappings sp new_mapper ∧
  gesture_action_map mp !! CLOSED_FIST = Some approve_action ∧
  (approve_action ∉ content_actions sp) ∧
  (∀ g a, gesture_action_map mp !! g = Some a →
          a ∈ content_actions sp → g ≠ CLOSED_FIST) ∧
  (∀ e', action approve_action e'
         = (e', Raised (NotImplementedError "Action not implemented"))).
Proof.
  intros mp. unfold mp, ApplicationController_init, on_mapper, start; simpl.
  split_and!.
  - done.
  - apply startup_lookup.
  - apply approve_not_content.
  - intros g a Ha Hin ->. rewrite startup_lookup in Ha.
    simplify_eq. by apply approve_not_content in Hin.
  - done.
Qed.

(** X24. With bodies that raise nothing but subclasses of [Exception], the
    approval cycle of the application never raises: the playback actions
    are wrapped, and the placeholder of the closed fist is never pending. *)
Lemma startup_cycle_never_raises os e :
  raises_only_Exception (get_current_device_body sp) →
  raises_only_Exception (add_current_track_to_liked_body sp) →
  raises_only_Exception (play_next_track_body sp) →
  raises_only_Exception (stop_playback_body sp) →
  raises_only_Exception (increment_volume_body sp) →
  raises_only_Exception (mute_body sp) →
  raises_only_Exception (unmute_body sp) →
  (handle_gestures os (ApplicationController_init sp e)).2 = Returned tt.
Proof.
  intros Hdev Hliked Hnext Hstop Hvol Hmute Hunmute.
  apply handle_gestures_safe; [done|].
  unfold ApplicationController_init, on_mapper, start; simpl.
  intros g a Hg Ha. rewrite startup_lookup in Ha.
  destruct g; simplify_eq; simpl;
    apply handle_spotify_errors_contains;
    try apply ensure_device_raises_only_Exception; done.
Qed.
End Startup.

(** ** The properties at work on the concrete scenario *)

Lemma pending_survives_noise_witness :
  state (manager (awaiting THUMB_UP volume_registry)) = ActionDetectedState ∧
  pending_gesture (manager (awaiting THUMB_UP volume_registry)) = Some THUMB_UP ∧
  Some OPEN_PALM ≠ Some CLOSED_FIST ∧
  handle_gesture (Some OPEN_PALM) (awaiting THUMB_UP volume_registry)
  = (awaiting THUMB_UP volume_registry, Returned tt).
Proof.
  split_and!; [reflexivity|reflexivity|discriminate|].
  apply (pending_survives_noise (awaiting THUMB_UP volume_registry)
           THUMB_UP (Some OPEN_PALM)); [reflexivity|reflexivity|discriminate].
Defined.

Lemma held_gesture_detected_once_witness :
  THUMB_UP ≠ CLOSED_FIST ∧
  gesture_action_map volume_registry !! THUMB_UP = Some volume_up ∧
  1 ≤ 3 ∧
  entered ActionDetectedState
    (events (handle_gestures (replicate 3 (Some THUMB_UP))
               (start volume_registry quiet_room)).1) = 1.
Proof.
  split_and!; [discriminate|vm_compute; reflexivity|lia|].
  apply (held_gesture_detected_once volume_registry THUMB_UP volume_up
           quiet_room 3); [discriminate|vm_compute; reflexivity|lia].
Defined.

Lemma observation_after_confirmation_only_resets_witness :
  state (manager just_confirmed) = ApprovedState ∧
  state (manager (handle_gesture (Some THUMB_UP) just_confirmed).1) = IdleState ∧
  pending_gesture (manager (handle_gesture (Some THUMB_UP) just_confirmed).1)
  = pending_gesture (manager just_confirmed).
Proof.
  split; [reflexivity|].
  pose proof (observation_after_confirmation_only_resets just_confirmed
                (Some THUMB_UP) eq_refl) as H.
  split; apply H.
Defined.

Lemma missing_binding_is_safe_witness :
  state (manager (awaiting THUMB_UP emptied_registry)) = ActionDetectedState ∧
  pending_gesture (manager (awaiting THUMB_UP emptied_registry)) = Some THUMB_UP ∧
  gesture_action_map emptied_registry !! THUMB_UP = None ∧
  state (manager (handle_gesture (Some CLOSED_FIST)
                    (awaiting THUMB_UP emptied_registry)).1) = ApprovedState.
Proof.
  split_and!; [reflexivity|reflexivity|vm_compute; reflexivity|].
  apply (missing_binding_is_safe (awaiting THUMB_UP emptied_registry)
           THUMB_UP None); [reflexivity|reflexivity|vm_compute; reflexivity].
Defined.

Lemma confirm_executes_once_witness :
  THUMB_UP ≠ CLOSED_FIST ∧
  gesture_action_map volume_registry !! THUMB_UP = Some volume_up ∧
  performed (events (handle_gestures [Some THUMB_UP; Some CLOSED_FIST]
                       (start volume_registry quiet_room)).1) = [volume_up] ∧
  env (handle_gestures [Some THUMB_UP; Some CLOSED_FIST]
         (start volume_registry quiet_room)).1
  = (action volume_up
       (print ("Performing action: " +:+ action_name volume_up)
          (print ("Gesture '" +:+ Gesture_value THUMB_UP
                    +:+ "' detected. Waiting for approval...") quiet_room))).1.
Proof.
  split_and!; [discriminate|vm_compute; reflexivity| |].
  - apply (confirm_executes_once volume_registry THUMB_UP volume_up quiet_room
             None); [discriminate|vm_compute; reflexivity].
  - apply (confirm_executes_once volume_registry THUMB_UP volume_up quiet_room
             None); [discriminate|vm_compute; reflexivity].
Defined.

Lemma failing_action_propagates_witness :
  state (manager (awaiting THUMB_DOWN failing_registry)) = ActionDetectedState ∧
  pending_gesture (manager (awaiting THUMB_DOWN failing_registry))
  = Some THUMB_DOWN ∧
  gesture_action_map failing_registry !! THUMB_DOWN = Some unreachable_service ∧
  (handle_gesture (Some CLOSED_FIST) (awaiting THUMB_DOWN failing_registry)).2
  = (action unreachable_service
       (print ("Performing action: " +:+ action_name unreachable_service)
          (env (awaiting THUMB_DOWN failing_registry)))).2.
Proof.
  split_and!; [reflexivity|reflexivity|vm_compute; reflexivity|].
  apply (failing_action_propagates (awaiting THUMB_DOWN failing_registry)
           THUMB_DOWN unreachable_service);
    [reflexivity|reflexivity|vm_compute; reflexivity].
Defined.

Lemma pending_iff_detected_invariant_witness :
  reachable (start volume_registry quiet_room)
    (handle_gesture (Some THUMB_UP) (start volume_registry quiet_room)).1 ∧
  pending_iff_detected
    (handle_gesture (Some THUMB_UP) (start volume_registry quiet_room)).1.
Proof.
  assert (reachable (start volume_registry quiet_room)
            (handle_gesture (Some THUMB_UP)
               (start volume_registry quiet_room)).1) as Hreach.
  { apply (reach_handle_gesture _ (start volume_registry quiet_room)
             (Some THUMB_UP)); [apply reach_start|].
    vm_compute; reflexivity. }
  split; [exact Hreach|].
  apply (pending_iff_detected_invariant volume_registry quiet_room _ Hreach).
Defined.

(** The two sequences of the concrete scenario: the held gesture and the
    stray gesture both end with one increase of the volume, from 40 to 50,
    in the Approved state. *)
Example held_then_confirmed :
  let r := handle_gestures [Some THUMB_UP; Some THUMB_UP; Some CLOSED_FIST]
             (start volume_registry quiet_room) in
  world (env r.1) = 50 ∧ performed (events r.1) = [volume_up] ∧
  state (manager r.1) = ApprovedState ∧ r.2 = Returned tt.
Proof. by vm_compute. Qed.

Example noise_then_confirmed :
  let r := handle_gestures [Some THUMB_UP; Some OPEN_PALM; Some CLOSED_FIST; None]
             (start volume_registry quiet_room) in
  world (env r.1) = 50 ∧ performed (events r.1) = [volume_up] ∧
  state (manager r.1) = IdleState ∧ r.2 = Returned tt.
Proof. by vm_compute. Qed.

(** The failing request behind the decorator: the error is printed and the
    confirmation returns with nothing pending. *)
Example guarded_service_is_contained :
  let r := handle_gestures [Some THUMB_DOWN; Some CLOSED_FIST]
             (start (add_mapping THUMB_DOWN guarded_service volume_registry)
                quiet_room) in
  r.2 = Returned tt ∧
  pending_gesture (manager r.1) = None ∧
  stdout (env r.1)
  = ["Gesture 'Thumb_Down' detected. Waiting for approval...";
     "Performing action: Play Next";
     "Unexpected error in play_next_track: connection refused"].
Proof. by vm_compute. Qed.

(** ** Where the stated claims fail *)

(** C1 as stated: after [Thumb_Up, Closed_Fist] the action has run once,
    but the state is the transient Approved state, not Idle. *)
Lemma confirm_does_not_end_in_idle :
  let r := handle_gestures [Some THUMB_UP; Some CLOSED_FIST]
             (start volume_registry quiet_room) in
  gesture_action_map volume_registry !! THUMB_UP = Some volume_up ∧
  r.2 = Returned tt ∧
  state (manager r.1) = ApprovedState ∧
  ¬ (performed (events r.1) = [volume_up] ∧ state (manager r.1) = IdleState).
Proof.
  split_and!; try (vm_compute; reflexivity).
  intros [_ H]. vm_compute in H. discriminate H.
Qed.

(** C2 as stated: the action bound to Thumb_Down raises; the exception
    leaves [handle_gesture], the state is neither Idle nor the waiting
    state, and the pending gesture is not cleared. *)
Lemma failing_action_escapes :
  let c := awaiting THUMB_DOWN failing_registry in
  let r := handle_gesture (Some CLOSED_FIST) c in
  gesture_action_map (mapper (manager c)) !! THUMB_DOWN
  = Some unreachable_service ∧
  r.2 = Raised (Exception "connection refused") ∧
  state (manager r.1) = ApprovedState ∧
  pending_gesture (manager r.1) = Some THUMB_DOWN ∧
  ¬ (r.2 = Returned tt) ∧
  ¬ (state (manager r.1) = IdleState ∨
     state (manager r.1) = ActionDetectedState) ∧
  ¬ (pending_gesture (manager r.1) = None).
Proof.
  split_and!; try (vm_compute; reflexivity).
  - intros H. vm_compute in H. discriminate H.
  - intros [H|H]; vm_compute in H; discriminate H.
  - intros H. vm_compute in H. discriminate H.
Qed.

(** C4 as stated: the two calls [Thumb_Down, Closed_Fist], of which the
    second raises, leave a gesture pending in the Approved state. *)
Lemma pending_outside_detected_state :
  ¬ (∀ c, reachable_despite_errors (start failing_registry quiet_room) c →
          pending_iff_detected c).
Proof.
  intros Hall.
  pose (c1 := (handle_gesture (Some THUMB_DOWN)
                 (start failing_registry quiet_room)).1).
  pose (c2 := (handle_gesture (Some CLOSED_FIST) c1).1).
  assert (reachable_despite_errors (start failing_registry quiet_room) c2)
    as Hreach.
  { apply reach_err_handle_gesture, reach_err_handle_gesture, reach_err_start. }
  apply Hall in Hreach. destruct Hreach as [Hpending _].
  assert (is_Some (pending_gesture (manager c2))) as Hsome.
  { exists THUMB_DOWN. vm_compute; reflexivity. }
  apply Hpending in Hsome. vm_compute in Hsome. discriminate Hsome.
Qed.

(** C7 as stated: with the entry of the pending gesture removed, the
    closed fist leaves the manager in the Approved state, not in Idle. *)
Lemma missing_binding_does_not_end_in_idle :
  let c := awaiting THUMB_UP emptied_registry in
  let r := handle_gesture (Some CLOSED_FIST) c in
  gesture_action_map (mapper (manager c)) !! THUMB_UP = None ∧
  state (manager r.1) = ApprovedState ∧
  ¬ (r.2 = Returned tt ∧
     performed (events r.1) = performed (events c) ∧
     pending_gesture (manager r.1) = None ∧
     state (manager r.1) = IdleState).
Proof.
  split_and!; try (vm_compute; reflexivity).
  intros (_ & _ & _ & H). vm_compute in H. discriminate H.
Qed.

(** ** Further properties of the approval cycle *)

Section Runs.
Context {World : Type}.
Implicit Types (c : Config World) (mp : GestureToActionMapper World).
Implicit Types (a : GestureAction World) (e : Env World).
Implicit Types (g G : Gesture) (o : option Gesture).
Implicit Types (os : list (option Gesture)).

(** Every call of [handle_gesture] is one row of the transition table. *)
Lemma handle_gesture_cases st pg mp e evs o :
  let c := mkConfig (mkManager st pg mp) e evs in
  (handle_gesture o c = (c, Returned tt) ∧
   (st = IdleState ∧ ignored_when_idle mp o ∨
    st = ActionDetectedState ∧ o ≠ Some CLOSED_FIST))
  ∨ (∃ g a, st = IdleState ∧ o = Some g ∧ g ≠ CLOSED_FIST ∧
       gesture_action_map mp !! g = Some a ∧
       handle_gesture o c
       = (mkConfig (mkManager ActionDetectedState (Some g) mp)
            (print ("Gesture '" +:+ Gesture_value g
                      +:+ "' detected. Waiting for approval...") e)
            (evs ++ [EvTransition ActionDetectedState]),
          Returned tt))
  ∨ (∃ g a, st = ActionDetectedState ∧ o = Some CLOSED_FIST ∧ pg = Some g ∧
       gesture_action_map mp !! g = Some a ∧
       handle_gesture o c
       = let '(e', r) :=
           action a (print ("Performing action: " +:+ action_name a) e) in
         (mkConfig
            (mkManager ApprovedState
               (match r with Returned _ => None | Raised _ => Some g end) mp)
            e' ((evs ++ [EvTransition ApprovedState]) ++ [EvPerform a]),
          r))
  ∨ (st = ActionDetectedState ∧ o = Some CLOSED_FIST ∧
     handle_gesture o c
     = (mkConfig (mkManager ApprovedState None mp) e
          (evs ++ [EvTransition ApprovedState]),
        Returned tt))
  ∨ (st = ApprovedState ∧
     handle_gesture o c
     = (mkConfig (mkManager IdleState pg mp) e
          (evs ++ [EvTransition IdleState]),
        Returned tt)).
Proof.
  intros c. unfold c. destruct st.
  - destruct (decide (o = Some CLOSED_FIST)) as [->|Ho].
    { left. rewrite idle_fist. split; [done|]. left. split; [done|by left]. }
    destruct (in_map o mp) eqn:Hin.
    + destruct o as [g|]; [|done].
      apply bool_decide_eq_true in Hin as [a Ha].
      right; left. exists g, a.
      rewrite (idle_mapped g a) by congruence.
      split_and!; try done. congruence.
    + left. rewrite idle_unmapped by done.
      split; [done|]. left. split; [done|by right].
  - destruct (decide (o = Some CLOSED_FIST)) as [->|Ho].
    2: { left. rewrite detected_other by done. split; [done|]. by right. }
    destruct pg as [g|].
    2: { do 3 right; left. by rewrite detected_fist_nothing. }
    destruct (gesture_action_map mp !! g) as [a|] eqn:Ha.
    + do 2 right; left. exists g, a.
      by rewrite (detected_fist_mapped _ _ _ _ _ Ha).
    + do 3 right; left. by rewrite (detected_fist_unmapped _ _ _ _ Ha).
  - do 4 right. by rewrite approved_any.
Qed.

(** Observations delivered one after the other: a run over [os1 ++ os2]
    is the run over [os1] followed, if it returned, by the run over [os2]. *)
Lemma handle_gestures_app os1 os2 c :
  handle_gestures (os1 ++ os2) c
  = match handle_gestures os1 c with
    | (c', Returned _) => handle_gestures os2 c'
    | (c', Raised x) => (c', Raised x)
    end.
Proof.
  revert c. induction os1 as [|o os1 IH]; intros c; [done|].
  rewrite <- app_comm_cons, !handle_gestures_cons.
  destruct (handle_gesture o c) as [c' [[]|x]]; [apply IH|done].
Qed.

(** A run over observations among [seen] keeps [observed_inv]. *)
Lemma run_keeps_observed mp seen os c :
  os ⊆ seen →
  observed_inv mp seen c →
  observed_inv mp seen (handle_gestures os c).1.
Proof.
  assert (∀ o c, o ∈ seen → observed_inv mp seen c →
                 observed_inv mp seen (handle_gesture o c).1) as Hstep.
  { clear os c.
    intros o [[st pg mp'] e' evs] Ho (Hmp & Hpg & Hperf); simpl in *.
    subst mp'.
    destruct (handle_gesture_cases st pg mp e' evs o)
      as [[-> _]|[(g & a & -> & -> & Hg & Ha & ->)
         |[(g & a & -> & -> & -> & Ha & ->)|[(-> & -> & ->)|(-> & ->)]]]];
      unfold observed_inv; simpl.
    - done.
    - split_and!; [done| |by rewrite performed_app, app_nil_r].
      intros g' [= <-]. done.
    - destruct (Hpg g eq_refl) as [Hg Hin].
      destruct (action a _) as [e'' [[]|x]]; simpl;
        (split_and!; [done| |]);
        try (by intros g' [=]);
        try (by intros g' [= <-]);
        rewrite !performed_app, app_nil_r; simpl;
        apply Forall_app; (split; [done|]);
        apply Forall_singleton; exists g; done.
    - split_and!; [done|by intros g' [=]|by rewrite performed_app, app_nil_r].
    - split_and!; [done|done|by rewrite performed_app, app_nil_r]. }
  revert c. induction os as [|o os IH]; intros c Hsub Hinv; [done|].
  rewrite handle_gestures_cons.
  assert (observed_inv mp seen (handle_gesture o c).1) as Hinv'.
  { apply Hstep; [|done]. apply Hsub. by left. }
  destruct (handle_gesture o c) as [c' [[]|x]]; simpl in *; [|done].
  apply IH; [|done]. intros o' Ho'. apply Hsub. by right.
Qed.

(** X1. Whatever is observed, an action runs only if its gesture was
    observed: every action performed in a run from the initial state is
    the registry's action for a gesture, other than the closed fist, that
    occurs among the observations.  Hence an action that the registry binds
    to the closed fist and to no other gesture is never performed by the
    approval cycle. *)
Theorem performed_actions_were_observed mp e os :
  let acts := performed (events (handle_gestures os (start mp e)).1) in
  Forall (action_of_observed mp os) acts ∧
  (∀ a, (∀ g, gesture_action_map mp !! g = Some a → g = CLOSED_FIST) →
        a ∉ acts).
Proof.
  intros acts.
  assert (observed_inv mp os (start mp e)) as Hinit.
  { unfold observed_inv, start; simpl.
    split_and!; [done|by intros g [=]|constructor]. }
  pose proof (run_keeps_observed mp os os (start mp e)) as Hrun.
  destruct Hrun as (_ & _ & Hperf); [done|exact Hinit|].
  split; [exact Hperf|].
  intros a Honly Hin. fold acts in Hperf.
  rewrite Forall_forall in Hperf.
  destruct (Hperf a Hin) as (g & Hg & _ & Ha).
  by apply Honly in Ha.
Qed.

(** X2. A confirmation needs a closed fist: in a run from any
    configuration, at most one action is performed per observed closed
    fist. *)
Theorem at_most_one_action_per_fist os c :
  length (performed (events (handle_gestures os c).1))
  ≤ length (performed (events c)) + fists os.
Proof.
  revert c. induction os as [|o os IH]; intros c; [simpl; lia|].
  rewrite handle_gestures_cons.
  assert (length (performed (events (handle_gesture o c).1))
          ≤ length (performed (events c))
            + (if decide (o = Some CLOSED_FIST) then 1 else 0)) as Hstep.
  { destruct c as [[st pg mp] e evs]; simpl.
    destruct (handle_gesture_cases st pg mp e evs o)
      as [[-> _]|[(g & a & -> & -> & Hg & Ha & ->)
         |[(g & a & -> & -> & -> & Ha & ->)|[(-> & -> & ->)|(-> & ->)]]]];
      simpl; try lia.
    - rewrite performed_app, app_nil_r. lia.
    - destruct (action a _) as [e'' [[]|x]]; simpl;
        rewrite !performed_app, app_nil_r, length_app; simpl; lia.
    - rewrite performed_app, app_nil_r. lia.
    - rewrite performed_app, app_nil_r. lia. }
  assert (fists (o :: os)
          = (if decide (o = Some CLOSED_FIST) then 1 else 0) + fists os) as ->.
  { unfold fists. rewrite filter_cons. by destruct (decide _). }
  destruct (handle_gesture o c) as [c' [[]|x]]; simpl in *.
  - specialize (IH c'). lia.
  - lia.
Qed.
(** X3. Once a gesture G waits for approval, whatever is observed before
    the closed fist (other mapped gestures included) changes nothing: the
    run [G, noise..., closed fist] calls [transition_to] twice and performs
    exactly the action of G, that is, it runs the function of that action
    once, after the two notices, ends the way that call ends and leaves the
    environment that call leaves. *)
Theorem noise_before_confirmation mp G a e noise :
  G ≠ CLOSED_FIST →
  gesture_action_map mp !! G = Some a →
  Forall (fun o => o ≠ Some CLOSED_FIST) noise →
  let r := handle_gestures (Some G :: noise ++ [Some CLOSED_FIST]) (start mp e) in
  r = handle_gestures [Some G; Some CLOSED_FIST] (start mp e) ∧
  events r.1 = [EvTransition ActionDetectedState;
                EvTransition ApprovedState; EvPerform a] ∧
  performed (events r.1) = [a] ∧
  r.2 = (confirmation G a e).2 ∧
  env r.1 = (confirmation G a e).1.
Proof.
  intros HG Ha Hnoise r. unfold r, start, new_manager, confirmation.
  rewrite !handle_gestures_cons, (idle_mapped _ _ _ _ _ _ HG Ha).
  cbv beta iota.
  rewrite handle_gestures_app, detected_noise by done.
  rewrite !handle_gestures_cons, (detected_fist_mapped _ _ _ _ _ Ha).
  by destruct (action a _) as [e' [[]|x]].
Qed.

(** X4. An idle manager reacts to nothing but a mapped gesture other than
    the closed fist: a run of observations that are the closed fist, no
    gesture, or gestures without an entry in the registry returns and leaves
    the configuration as it was. *)
Theorem idle_ignores_the_unmapped mp pg e evs os :
  Forall (ignored_when_idle mp) os →
  handle_gestures os (mkConfig (mkManager IdleState pg mp) e evs)
  = (mkConfig (mkManager IdleState pg mp) e evs, Returned tt).
Proof.
  induction 1 as [|o os Ho _ IH]; [done|].
  rewrite handle_gestures_cons.
  destruct Ho as [->|Ho]; [by rewrite idle_fist|by rewrite idle_unmapped].
Qed.

(** X5. A run never changes the registry, and it reaches the outside
    world only through a registered action: if the run performed no action,
    it returned, the world and the device id are as before, and the console
    has only gained lines. *)
Theorem run_without_action_changes_nothing os c :
  let r := handle_gestures os c in
  mapper (manager r.1) = mapper (manager c) ∧
  (performed (events r.1) = performed (events c) →
     r.2 = Returned tt ∧
     world (env r.1) = world (env c) ∧
     device_id (env r.1) = device_id (env c) ∧
     stdout (env c) `prefix_of` stdout (env r.1)).
Proof.
  assert (∀ o c,
    let r := handle_gesture o c in
    mapper (manager r.1) = mapper (manager c) ∧
    length (performed (events c)) ≤ length (performed (events r.1)) ∧
    (length (performed (events r.1)) = length (performed (events c)) →
       r.2 = Returned tt ∧
       world (env r.1) = world (env c) ∧
       device_id (env r.1) = device_id (env c) ∧
       stdout (env c) `prefix_of` stdout (env r.1))) as Hstep.
  { intros o [[st pg mp] e evs]; simpl.
    destruct (handle_gesture_cases st pg mp e evs o)
      as [[-> _]|[(g & a & -> & -> & Hg & Ha & ->)
         |[(g & a & -> & -> & -> & Ha & ->)|[(-> & -> & ->)|(-> & ->)]]]];
      simpl.
    - done.
    - rewrite performed_app, app_nil_r.
      split_and!; try done. intros _.
      split_and!; try done. by apply prefix_app_r.
    - destruct (action a _) as [e'' [[]|x]]; simpl;
        rewrite !performed_app, app_nil_r, length_app; simpl;
        (split_and!; [done|lia|lia]).
    - rewrite performed_app, app_nil_r. done.
    - rewrite performed_app, app_nil_r. done. }
  assert (∀ os c,
    let r := handle_gestures os c in
    mapper (manager r.1) = mapper (manager c) ∧
    length (performed (events c)) ≤ length (performed (events r.1)) ∧
    (length (performed (events r.1)) = length (performed (events c)) →
       r.2 = Returned tt ∧
       world (env r.1) = world (env c) ∧
       device_id (env r.1) = device_id (env c) ∧
       stdout (env c) `prefix_of` stdout (env r.1))) as Hrun.
  { clear os c. induction os as [|o os IH]; intros c; [done|].
    cbv zeta. rewrite handle_gestures_cons.
    destruct (Hstep o c) as (Hmp & Hle & Hsame).
    destruct (handle_gesture o c) as [c' [[]|x]]; simpl in *.
    - destruct (IH c') as (Hmp' & Hle' & Hsame'); simpl in *.
      split_and!; [congruence|lia|].
      intros Hlen.
      destruct Hsame as (_ & Hw & Hd & Hout); [lia|].
      destruct Hsame' as (Hr & Hw' & Hd' & Hout'); [lia|].
      split_and!; [done|congruence|congruence|by etrans]. 
    - split_and!; [done|done|]. intros Hlen.
      by destruct (Hsame Hlen) as [? _]. }
  intros r. destruct (Hrun os c) as (Hmp & _ & Hsame).
  split; [done|]. intros Heq. apply Hsame. unfold r in Heq. by rewrite Heq.
Qed.

(** X6. An idle manager never reads the pending gesture: two idle
    configurations that differ in the pending gesture only answer every run
    of observations alike, with the same result, environment, calls and
    final state.  A gesture left pending by a confirmation that raised is
    therefore never confirmed later. *)
Theorem stale_pending_is_harmless os pg1 pg2 mp e evs :
  let r1 := handle_gestures os (mkConfig (mkManager IdleState pg1 mp) e evs) in
  let r2 := handle_gestures os (mkConfig (mkManager IdleState pg2 mp) e evs) in
  r1.2 = r2.2 ∧
  env r1.1 = env r2.1 ∧
  events r1.1 = events r2.1 ∧
  state (manager r1.1) = state (manager r2.1) ∧
  (state (manager r1.1) ≠ IdleState →
   pending_gesture (manager r1.1) = pending_gesture (manager r2.1)).
Proof.
  set (rel := fun c1 c2 : Config World =>
    env c1 = env c2 ∧ events c1 = events c2 ∧
    state (manager c1) = state (manager c2) ∧
    mapper (manager c1) = mapper (manager c2) ∧
    (state (manager c1) ≠ IdleState →
     pending_gesture (manager c1) = pending_gesture (manager c2))).
  assert (∀ os c1 c2, rel c1 c2 →
            (handle_gestures os c1).2 = (handle_gestures os c2).2 ∧
            rel (handle_gestures os c1).1 (handle_gestures os c2).1) as Hrun.
  { clear. induction os as [|o os IH]; intros c1 c2 Hrel; [done|].
    rewrite !handle_gestures_cons.
    assert ((handle_gesture o c1).2 = (handle_gesture o c2).2 ∧
            rel (handle_gesture o c1).1 (handle_gesture o c2).1) as [Hr Hrel'].
    { destruct c1 as [[st pg1 mp] e evs], c2 as [[st2 pg2 mp2] e2 evs2].
      destruct Hrel as (He & Hevs & Hst & Hmp & Hpg); simpl in *.
      subst e2 evs2 st2 mp2.
      destruct (decide (st = IdleState)) as [->|Hst].
      2: { rewrite <- (Hpg Hst). split; [done|]. unfold rel. done. }
      destruct (decide (o = Some CLOSED_FIST)) as [->|Ho].
      { rewrite !idle_fist. unfold rel; simpl. done. }
      destruct (in_map o mp) eqn:Hin.
      - destruct o as [g|]; [|done].
        apply bool_decide_eq_true in Hin as [a Ha].
        rewrite !(idle_mapped g a) by congruence. unfold rel; simpl. done.
      - rewrite !idle_unmapped by done. unfold rel; simpl. done. }
    destruct (handle_gesture o c1) as [c1' [[]|x]],
             (handle_gesture o c2) as [c2' [[]|x2]]; simpl in *; try done.
    by apply IH. }
  intros r1 r2.
  destruct (Hrun os (mkConfig (mkManager IdleState pg1 mp) e evs)
              (mkConfig (mkManager IdleState pg2 mp) e evs))
    as (Hr & He & Hevs & Hst & _ & Hpg).
  { unfold rel; simpl. done. }
  done.
Qed.
(** X7. The registry is read when the closed fist arrives, not when the
    gesture was detected: after G (bound to A1) became pending, a
    registration of A2 for gesture H made before the closed fist decides
    what runs, namely A2 if H is G and A1 otherwise, and only that: the
    function of that action is run after the two notices, and the call of
    [handle_gesture] ends the way it ends, in the environment it leaves. *)
Theorem registration_is_read_at_confirmation mp G A1 H A2 e :
  G ≠ CLOSED_FIST →
  gesture_action_map mp !! G = Some A1 →
  let detected := (handle_gesture (Some G) (start mp e)).1 in
  let r := handle_gesture (Some CLOSED_FIST) (register H A2 detected) in
  let chosen := if decide (H = G) then A2 else A1 in
  performed (events r.1) = [chosen] ∧
  state (manager r.1) = ApprovedState ∧
  r.2 = (confirmation G chosen e).2 ∧
  env r.1 = (confirmation G chosen e).1.
Proof.
  intros HG Ha detected r chosen.
  unfold r, detected, start, new_manager, confirmation.
  rewrite (idle_mapped _ _ _ _ _ _ HG Ha). unfold register, on_mapper; simpl.
  assert (gesture_action_map (add_mapping H A2 mp) !! G = Some chosen) as Hlook.
  { unfold chosen, add_mapping; simpl. rewrite lookup_insert.
    destruct (decide (H = G)); done. }
  rewrite (detected_fist_mapped _ _ _ _ _ Hlook).
  by destruct (action chosen _) as [e' [[]|x]].
Qed.

(** X8. A gesture is taken up only if it has an entry when it is
    observed: if G is observed by the idle manager before it is registered,
    registering it afterwards does not make it pending, and the closed fist
    that follows performs nothing. *)
Theorem registration_after_observation_is_too_late mp G a e :
  gesture_action_map mp !! G = None →
  let observed := (handle_gesture (Some G) (start mp e)).1 in
  let r := handle_gesture (Some CLOSED_FIST) (register G a observed) in
  observed = start mp e ∧
  r = (register G a (start mp e), Returned tt) ∧
  performed (events r.1) = [] ∧
  state (manager r.1) = IdleState.
Proof.
  intros Hnone observed r. unfold r, observed, start, new_manager.
  rewrite idle_unmapped by (by apply in_map_unmapped).
  unfold register, on_mapper; simpl. by rewrite idle_fist.
Qed.

(** One complete cycle from the idle state, for an action that returns. *)
Lemma one_cycle g a o mp e evs :
  g ≠ CLOSED_FIST →
  gesture_action_map mp !! g = Some a →
  never_raises (action a) →
  handle_gestures [Some g; Some CLOSED_FIST; o]
    (mkConfig (mkManager IdleState None mp) e evs)
  = (mkConfig (mkManager IdleState None mp) (confirmation g a e).1
       (evs ++ [EvTransition ActionDetectedState;
                EvTransition ApprovedState; EvPerform a;
                EvTransition IdleState]),
     Returned tt).
Proof.
  intros Hg Ha Hret. unfold confirmation.
  rewrite handle_gestures_cons, (idle_mapped _ _ _ _ _ _ Hg Ha).
  cbv beta iota.
  rewrite handle_gestures_cons, (detected_fist_mapped _ _ _ _ _ Ha).
  specialize (Hret (print ("Performing action: " +:+ action_name a)
                      (print ("Gesture '" +:+ Gesture_value g
                                +:+ "' detected. Waiting for approval...") e))).
  destruct (action a _) as [e' [[]|x]]; [|done]. cbv beta iota.
  rewrite handle_gestures_cons, approved_any. cbv beta iota.
  simpl. by rewrite <- !app_assoc.
Qed.

(** X9. Cycles compose: a run of complete cycles (gesture, closed fist,
    one more observation), each for a mapped gesture whose action returns,
    performs exactly the actions of the gestures, in order: it leaves the
    environment that running their functions one after the other leaves,
    each after its two notices, and it ends idle with nothing pending. *)
Theorem cycles_perform_in_order mp e gs :
  Forall (fun '(g, _) =>
            g ≠ CLOSED_FIST ∧
            ∃ a, gesture_action_map mp !! g = Some a ∧ never_raises (action a))
         gs →
  let r := handle_gestures (cycles gs) (start mp e) in
  r.2 = Returned tt ∧
  state (manager r.1) = IdleState ∧
  pending_gesture (manager r.1) = None ∧
  performed (events r.1)
  = omap (fun '(g, _) => gesture_action_map mp !! g) gs ∧
  env r.1 = confirmations mp gs e.
Proof.
  intros Hgs.
  assert (∀ e evs,
    let r := handle_gestures (cycles gs)
               (mkConfig (mkManager IdleState None mp) e evs) in
    r.2 = Returned tt ∧
    state (manager r.1) = IdleState ∧
    pending_gesture (manager r.1) = None ∧
    performed (events r.1)
    = performed evs ++ omap (fun '(g, _) => gesture_action_map mp !! g) gs ∧
    env r.1 = confirmations mp gs e)
    as Hgen.
  { clear e. induction Hgs as [|[g o] gs (Hg & a & Ha & Hret) _ IH];
      intros e evs.
    - simpl. by rewrite app_nil_r.
    - cbv zeta. unfold cycles. rewrite bind_cons. fold (cycles gs).
      rewrite handle_gestures_app.
      rewrite (one_cycle g a o mp e evs Hg Ha Hret).
      destruct (IH (confirmation g a e).1
                  (evs ++ [EvTransition ActionDetectedState;
                           EvTransition ApprovedState; EvPerform a;
                           EvTransition IdleState]))
        as (Hr & Hst & Hpg & Hperf & Henv).
      split_and!; [done|done|done| |].
      + rewrite Hperf, performed_app; simpl. rewrite Ha.
        by rewrite <- app_assoc.
      + rewrite Henv. unfold confirmations; simpl. by rewrite Ha. }
  apply (Hgen e []).
Qed.

(** X10. The observation that follows a confirmation is lost, even if
    it is a mapped gesture: in the run [G, closed fist, o, closed fist] the
    second closed fist finds an idle manager, so only the action of G is
    performed: the environment at the end is the one the function of that
    action left, and [o] has neither become pending nor had any effect. *)
Theorem gesture_after_confirmation_is_lost mp G a o e :
  G ≠ CLOSED_FIST →
  gesture_action_map mp !! G = Some a →
  never_raises (action a) →
  let r := handle_gestures [Some G; Some CLOSED_FIST; o; Some CLOSED_FIST]
             (start mp e) in
  r.2 = Returned tt ∧
  performed (events r.1) = [a] ∧
  env r.1 = (confirmation G a e).1 ∧
  state (manager r.1) = IdleState ∧
  pending_gesture (manager r.1) = None.
Proof.
  intros HG Ha Hret r. unfold r, start, new_manager.
  change [Some G; Some CLOSED_FIST; o; Some CLOSED_FIST]
    with ([Some G; Some CLOSED_FIST; o] ++ [Some CLOSED_FIST]).
  rewrite handle_gestures_app.
  rewrite (one_cycle G a o mp e [] HG Ha Hret).
  by rewrite handle_gestures_cons, idle_fist.
Qed.
End Runs.

(** ** The registry, the recogniser and the playback controller *)

Section Collaborators.
Context {World : Type}.
Implicit Types (mp : GestureToActionMapper World) (a : GestureAction World).
Implicit Types (e : Env World) (g : Gesture) (sp : Spotify World).

(** X11. Dispatch without approval: for no gesture and for a gesture
    without entry, [map_gesture_to_action] does nothing and raises nothing;
    after [add_mapping g a] it runs exactly [a] for [g], and for any other
    gesture it does what it did before the registration. *)
Theorem dispatch_follows_registration mp g a e :
  map_gesture_to_action None mp e = (e, Returned tt) ∧
  (gesture_action_map mp !! g = None →
   map_gesture_to_action (Some g) mp e = (e, Returned tt)) ∧
  map_gesture_to_action (Some g) (add_mapping g a mp) e = action a e ∧
  (∀ g', g' ≠ g →
     map_gesture_to_action (Some g') (add_mapping g a mp) e
     = map_gesture_to_action (Some g') mp e).
Proof.
  unfold map_gesture_to_action, add_mapping, perform_action; simpl.
  split_and!.
  - done.
  - by intros ->.
  - by rewrite lookup_insert_eq.
  - intros g' Hg'. by rewrite lookup_insert_ne.
Qed.

Lemma Gesture_of_value_iff (value : string) g :
  Gesture_of_value value = Some g ↔ Gesture_value g = value.
Proof.
  split.
  - intros Hfind. apply find_some in Hfind as [_ Heq].
    by apply bool_decide_eq_true in Heq.
  - intros <-. by destruct g.
Qed.

(** X12. [Gesture(value)] and [.value] are inverse to each other: the
    value of a member is turned back into that member, a string that is
    turned into a member is the value of it, different members have
    different values, and [ValueError] is raised exactly for the strings
    that are the value of no member. *)
Theorem Gesture_value_round_trip :
  (∀ g, Gesture_of_value (Gesture_value g) = Some g) ∧
  (∀ (value : string) g,
     Gesture_of_value value = Some g → Gesture_value g = value) ∧
  (∀ g1 g2, Gesture_value g1 = Gesture_value g2 → g1 = g2) ∧
  (∀ value : string,
     Gesture_of_value value = None ↔ ∀ g, Gesture_value g ≠ value).
Proof.
  split_and!.
  - intros g. by apply Gesture_of_value_iff.
  - intros value g. by apply Gesture_of_value_iff.
  - intros g1 g2 Heq.
    assert (Gesture_of_value (Gesture_value g1) = Some g2) as H2
      by by apply Gesture_of_value_iff.
    assert (Gesture_of_value (Gesture_value g1) = Some g1) as H1
      by by apply Gesture_of_value_iff.
    congruence.
  - intros value. split.
    + intros Hnone g Hg. apply Gesture_of_value_iff in Hg. congruence.
    + intros Hno. destruct (Gesture_of_value value) as [g|] eqn:Hg; [|done].
      apply Gesture_of_value_iff in Hg. by destruct (Hno g).
Qed.

(** X13. What the recogniser stores depends on the best candidate of the
    first hand alone: it is the member whose value is that candidate's name,
    and [None] if there is no such member or no hand; what was stored before
    plays no role.  If the first hand has no candidate the call raises, the
    stored gesture stays and the callback is not called. *)
Theorem recognized_gesture_is_top_candidate {Image R}
    (self : GestureRecognizer World Image R) top rest hands img ts e :
  let seen := GestureRecognizer_on_gesture_recognized self
                (mkGestureRecognizerResult ((top :: rest) :: hands)) img ts e in
  let unseen := GestureRecognizer_on_gesture_recognized self
                  (mkGestureRecognizerResult []) img ts e in
  let broken := GestureRecognizer_on_gesture_recognized self
                  (mkGestureRecognizerResult ([] :: hands)) img ts e in
  (∀ g, recognized_gesture seen.1.1 = Some g
        ↔ category_name top = Some (Gesture_value g)) ∧
  recognized_gesture unseen.1.1 = None ∧
  broken = (self, e, Raised (Exception "list index out of range")).
Proof.
  unfold GestureRecognizer_on_gesture_recognized, run_callback; simpl.
  split_and!; [|by repeat case_match|done].
  intros g.
  assert (category_name top ≫= Gesture_of_value = Some g
          ↔ category_name top = Some (Gesture_value g)) as Hiff.
  { destruct (category_name top) as [n|]; simpl; [|done].
    rewrite Gesture_of_value_iff. split; [by intros ->|by intros [= ->]]. }
  rewrite <- Hiff. by repeat case_match.
Qed.
Lemma handle_spotify_errors_raise {A} (none : A) name (func : Call World A) e x :
  (handle_spotify_errors none name func e).2 = Raised x →
  is_Exception x = false.
Proof.
  unfold handle_spotify_errors.
  destruct (func e) as [e1 [v|y]]; [done|].
  destruct y; simpl; (done || by intros [= <-]).
Qed.

(** X14. [handle_spotify_errors] lets no subclass of [Exception] out,
    whatever the wrapped function does: if the wrapper raises, the exception
    is none of them and it is the very outcome of the function; and if the
    function returns, the wrapper returns the same value from the same
    environment. *)
Theorem handle_spotify_errors_lets_no_Exception_out {A} (none : A) name
    (func : Call World A) e :
  match handle_spotify_errors none name func e with
  | (e', Raised x) => is_Exception x = false ∧ func e = (e', Raised x)
  | (e', Returned v) =>
      func e = (e', Returned v) ∨
      ∃ e1 x, func e = (e1, Raised x) ∧ is_Exception x = true ∧ v = none ∧
              world e' = world e1 ∧ device_id e' = device_id e1 ∧
              ∃ line, stdout e' = stdout e1 ++ [line]
  end.
Proof.
  unfold handle_spotify_errors.
  destruct (func e) as [e1 [v|x]]; [by left|].
  destruct x; simpl; try done; right; eexists _, _; by eauto 10.
Qed.

(** X15. Decorating twice is decorating once: a function already wrapped
    by [handle_spotify_errors], as [get_current_device] is when it is called
    inside another wrapped method, is left as it is by a second wrapper, so
    an error is reported once. *)
Theorem handle_spotify_errors_idempotent {A} (none : A) name name'
    (func : Call World A) e :
  handle_spotify_errors none name' (handle_spotify_errors none name func) e
  = handle_spotify_errors none name func e.
Proof.
  unfold handle_spotify_errors.
  destruct (func e) as [e1 [v|x]]; [done|].
  by destruct x.
Qed.

(** X16. The volume the controller asks for stays in range: when the
    service reports the volume v, [increment_volume] asks for a volume that
    is at most 100 and [decrease_volume] for one that is at least 0; for v
    between 0 and 100 both stay between 0 and 100 and move by at most 10,
    in their direction. *)
Theorem volume_requests_stay_in_range sp e e1 (v : Z) :
  sp_current_volume_percent sp e = (e1, Returned v) →
  ∃ up down : Z,
    increment_volume_impl sp e = sp_volume sp up e1 ∧
    decrease_volume_impl sp e = sp_volume sp down e1 ∧
    (up ≤ 100)%Z ∧ (0 ≤ down)%Z ∧
    ((0 ≤ v ≤ 100)%Z →
       (v ≤ up ≤ v + 10)%Z ∧ (v - 10 ≤ down ≤ v)%Z ∧
       (0 ≤ up)%Z ∧ (down ≤ 100)%Z ∧
       (up = v ↔ v = 100)%Z ∧ (down = v ↔ v = 0)%Z).
Proof.
  intros Hread. unfold increment_volume_impl, decrease_volume_impl.
  rewrite Hread. eexists _, _. split_and!; [done|done|lia|lia|lia].
Qed.

(** X17. With a service that keeps the volume it is told, increasing
    and then decreasing from a reported volume v between 0 and 100 ends at
    the smaller of v and 90: the volume is restored exactly when v was at
    most 90. *)
Theorem decrease_after_increase sp e e1 (v : Z) :
  keeps_volume sp →
  sp_current_volume_percent sp e = (e1, Returned v) →
  (0 ≤ v ≤ 100)%Z →
  let e2 := (increment_volume_impl sp e).1 in
  let r := decrease_volume_impl sp e2 in
  r.2 = Returned tt ∧
  sp_current_volume_percent sp r.1 = (r.1, Returned (Z.min 90 v)) ∧
  (Z.min 90 v = v ↔ (v ≤ 90)%Z).
Proof.
  intros Hkeeps Hread Hv e2 r. unfold r, e2.
  unfold increment_volume_impl, decrease_volume_impl. rewrite Hread.
  destruct (Hkeeps (Z.min 100 (v + 10)) e1) as [_ Hread2]; [lia|].
  rewrite Hread2.
  destruct (Hkeeps (Z.max 0 (Z.min 100 (v + 10) - 10))
              (sp_volume sp (Z.min 100 (v + 10)) e1).1) as [Hret Hread3]; [lia|].
  replace (Z.min 90 v) with (Z.max 0 (Z.min 100 (v + 10) - 10)) by lia.
  split_and!; [done|done|lia].
Qed.

(** X18. When the request for the current volume fails with a subclass
    of [Exception], the decorated [increment_volume] asks for no volume at
    all: it prints one line and returns, the environment being otherwise
    the one the failed request left. *)
Theorem failed_read_requests_no_volume sp rest e e1 x :
  sp_current_volume_percent sp e = (e1, Raised x) →
  is_Exception x = true →
  ∃ line,
    increment_volume (with_client sp rest) e = (print line e1, Returned tt).
Proof.
  intros Hread Hx.
  unfold increment_volume, handle_spotify_errors, with_client; simpl.
  unfold increment_volume_impl. rewrite Hread, Hx.
  destruct (is_SpotifyException x); by eexists.
Qed.

(** X19. [get_instance] builds the controller once: after a call that
    returned, every further call returns the same controller and touches
    nothing, and constructing a controller directly raises the singleton
    error (after [load_dotenv] has run). *)
Theorem get_instance_builds_once {Client : Type}
    (load_dotenv : Call World unit) (new_client : Call World Client)
    e inst e1 (self : Client) :
  get_instance load_dotenv new_client None e = (inst, e1, Returned self) →
  inst = Some self ∧
  (∀ e2, get_instance load_dotenv new_client inst e2
         = (inst, e2, Returned self)) ∧
  (∀ e2, (SpotifyController_new load_dotenv new_client inst e2).2
         = match (load_dotenv e2).2 with
           | Returned _ => Raised (Exception "SpotifyController is a singleton!")
           | Raised y => Raised y
           end).
Proof.
  unfold get_instance.
  destruct (SpotifyController_new load_dotenv new_client None e)
    as [e' [cl|y]]; intros [= <- <- <-].
  split_and!; [done|done|].
  intros e2. unfold SpotifyController_new.
  by destruct (load_dotenv e2) as [e3 [[]|y]].
Qed.

(** X20. [__repr__] tells the configurations of the manager apart: two
    managers with the same representation are in the same state and have
    the same pending gesture. *)
Theorem repr_determines_state_and_pending (m1 m2 : ActionApprovalManager World) :
  ActionApprovalManager_repr m1 = ActionApprovalManager_repr m2 →
  state m1 = state m2 ∧ pending_gesture m1 = pending_gesture m2.
Proof.
  destruct m1 as [st1 pg1 mp1], m2 as [st2 pg2 mp2].
  unfold ActionApprovalManager_repr; simpl.
  destruct st1, st2; destruct pg1 as [[]|], pg2 as [[]|];
    intros Heq; (done || (vm_compute in Heq; discriminate Heq)).
Qed.
End Collaborators.

(** ** The application after start-up *)

Section Application.
Context {World : Type}.
Variable sp : SpotifyController World.
Implicit Types (e : Env World) (g : Gesture).

(** Direct dispatch does to the environment what
    [map_gesture_to_action] does, and ends as it ends. *)
Lemma direct_dispatch_is_map_gesture_to_action (c : Config World) o :
  (env (ApplicationController_on_gesture_recognized o c).1,
   (ApplicationController_on_gesture_recognized o c).2)
  = map_gesture_to_action o (mapper (manager c)) (env c).
Proof.
  unfold ApplicationController_on_gesture_recognized, map_gesture_to_action.
  destruct (o ≫= _) as [a|]; [|done].
  unfold invoke, bind, record_event, call; simpl.
  by destruct (perform_action a (env c)) as [e' r].
Qed.

(** X21. The closed fist through the two entry points of the
    application: dispatched directly, [perform_action] is called on the
    placeholder, which raises [NotImplementedError]; the environment and
    the manager stay as they were.  The approval cycle ignores the closed
    fist.  Any other gesture, dispatched directly, raises no subclass of
    [Exception].  For every observation, direct dispatch acts on the
    environment as [map_gesture_to_action] on the start-up registry does. *)
Theorem direct_dispatch_at_startup e g o :
  let c := ApplicationController_init sp e in
  let r := ApplicationController_on_gesture_recognized (Some CLOSED_FIST) c in
  let d := ApplicationController_on_gesture_recognized o c in
  r.2 = Raised (NotImplementedError "Action not implemented") ∧
  env r.1 = e ∧
  manager r.1 = manager c ∧
  events r.1 = [EvPerform approve_action] ∧
  handle_gesture (Some CLOSED_FIST) c = (c, Returned tt) ∧
  (env d.1, d.2)
  = map_gesture_to_action o (add_gesture_mappings sp new_mapper) e ∧
  (g ≠ CLOSED_FIST →
   ∀ x, (ApplicationController_on_gesture_recognized (Some g) c).2 = Raised x →
        is_Exception x = false).
Proof.
  intros c r d.
  assert ((g ≠ CLOSED_FIST →
           ∀ x, (ApplicationController_on_gesture_recognized (Some g) c).2
                = Raised x → is_Exception x = false)) as Hother.
  { intros Hg x Hx.
    pose proof (direct_dispatch_is_map_gesture_to_action c (Some g)) as Hd.
    rewrite Hx in Hd. unfold c in Hd at 2 3.
    unfold ApplicationController_init, on_mapper, start in Hd.
    unfold map_gesture_to_action in Hd.
    cbn [manager mapper env new_manager mbind option_bind] in Hd.
    rewrite startup_lookup in Hd. unfold perform_action in Hd.
    assert (∀ name (f : Call World unit) e',
              (e', Raised x) = handle_spotify_errors tt name f e →
              is_Exception x = false) as Hwrapped.
    { intros name f e' Heq.
      apply (handle_spotify_errors_raise tt name f e x).
      by rewrite <- Heq. }
    destruct g; [done|..]; eapply Hwrapped; exact Hd. }
  split_and!; try exact Hother.
  - unfold r, c, ApplicationController_on_gesture_recognized.
    unfold ApplicationController_init, on_mapper, start.
    cbn [manager mapper env new_manager mbind option_bind].
    by rewrite startup_lookup.
  - unfold r, c, ApplicationController_on_gesture_recognized.
    unfold ApplicationController_init, on_mapper, start.
    cbn [manager mapper env new_manager mbind option_bind].
    by rewrite startup_lookup.
  - unfold r, c, ApplicationController_on_gesture_recognized.
    unfold ApplicationController_init, on_mapper, start.
    cbn [manager mapper env new_manager mbind option_bind].
    by rewrite startup_lookup.
  - unfold r, c, ApplicationController_on_gesture_recognized.
    unfold ApplicationController_init, on_mapper, start.
    cbn [manager mapper env new_manager mbind option_bind].
    by rewrite startup_lookup.
  - done.
  - apply (direct_dispatch_is_map_gesture_to_action c o).
Qed.

(** X22. Whatever is observed after start-up, the approval cycle performs
    playback actions only: every action it performs is one of the six
    registered for the gestures other than the closed fist, and the
    placeholder of the closed fist is never performed. *)
Theorem startup_cycle_performs_only_content_actions e os :
  let run := handle_gestures os (ApplicationController_init sp e) in
  Forall (fun a => a ∈ content_actions sp) (performed (events run.1)) ∧
  approve_action ∉ performed (events run.1).
Proof.
  intros run.
  assert (Forall (fun a => a ∈ content_actions sp) (performed (events run.1)))
    as Hcontent.
  { pose proof (run_keeps_observed (add_gesture_mappings sp new_mapper) os os
                  (ApplicationController_init sp e)) as Hrun.
    destruct Hrun as (_ & _ & Hperf); [done| |].
    { unfold observed_inv; simpl. split_and!; [done|by intros g [=]|constructor]. }
    eapply Forall_impl; [exact Hperf|].
    intros a (g & Hg & _ & Ha). rewrite startup_lookup in Ha.
    unfold content_actions. destruct g; simplify_eq; set_solver. }
  split; [done|].
  intros Hin. rewrite Forall_forall in Hcontent.
  by apply Hcontent, approve_not_content in Hin.
Qed.

(** X23. A failed device lookup does not stop a method decorated with
    [ensure_device]: when no device is known and the lookup raises a
    subclass of [Exception], the error is printed, the device stays unknown
    and the body runs all the same. *)
Theorem device_lookup_failure_does_not_stop_the_call {A} (body : Call World A)
    e e1 x :
  device_id e = None →
  get_current_device_body sp e = (e1, Raised x) →
  is_Exception x = true →
  ∃ line,
    ensure_device (get_current_device sp) body e
    = body (set_device_id None (print line e1)).
Proof.
  intros Hdev Hlookup Hx.
  unfold ensure_device, get_current_device, handle_spotify_errors.
  rewrite Hdev, Hlookup, Hx.
  destruct (is_SpotifyException x); by eexists.
Qed.
End Application.

(** ** The further properties at work on the concrete scenario *)

Lemma noise_before_confirmation_witness :
  THUMB_UP ≠ CLOSED_FIST ∧
  gesture_action_map volume_registry !! THUMB_UP = Some volume_up ∧
  Forall (fun o => o ≠ Some CLOSED_FIST) [Some OPEN_PALM; None; Some THUMB_UP] ∧
  performed (events (handle_gestures
                       (Some THUMB_UP :: [Some OPEN_PALM; None; Some THUMB_UP]
                          ++ [Some CLOSED_FIST])
                       (start volume_registry quiet_room)).1)
  = [volume_up] ∧
  env (handle_gestures
         (Some THUMB_UP :: [Some OPEN_PALM; None; Some THUMB_UP]
            ++ [Some CLOSED_FIST])
         (start volume_registry quiet_room)).1
  = (confirmation THUMB_UP volume_up quiet_room).1.
Proof.
  assert (Forall (fun o : option Gesture => o ≠ Some CLOSED_FIST)
            [Some OPEN_PALM; None; Some THUMB_UP]) as Hnoise.
  { repeat constructor; discriminate. }
  split_and!; [discriminate|vm_compute; reflexivity|exact Hnoise| |].
  - apply (noise_before_confirmation volume_registry THUMB_UP volume_up
             quiet_room [Some OPEN_PALM; None; Some THUMB_UP]);
      [discriminate|vm_compute; reflexivity|exact Hnoise].
  - apply (noise_before_confirmation volume_registry THUMB_UP volume_up
             quiet_room [Some OPEN_PALM; None; Some THUMB_UP]);
      [discriminate|vm_compute; reflexivity|exact Hnoise].
Defined.

Lemma idle_ignores_the_unmapped_witness :
  Forall (ignored_when_idle volume_registry)
    [Some CLOSED_FIST; None; Some VICTORY] ∧
  handle_gestures [Some CLOSED_FIST; None; Some VICTORY]
    (mkConfig (mkManager IdleState None volume_registry) quiet_room [])
  = (mkConfig (mkManager IdleState None volume_registry) quiet_room [],
     Returned tt).
Proof.
  assert (Forall (ignored_when_idle volume_registry)
            [Some CLOSED_FIST; None; Some VICTORY]) as Hos.
  { apply Forall_cons; split; [left; reflexivity|].
    apply Forall_cons; split; [right; reflexivity|].
    apply Forall_cons; split; [right; vm_compute; reflexivity|].
    apply Forall_nil_2. }
  split; [exact Hos|].
  apply (idle_ignores_the_unmapped volume_registry None quiet_room [] _ Hos).
Defined.

Lemma registration_is_read_at_confirmation_witness :
  THUMB_UP ≠ CLOSED_FIST ∧
  gesture_action_map volume_registry !! THUMB_UP = Some volume_up ∧
  performed (events (handle_gesture (Some CLOSED_FIST)
                       (register THUMB_UP guarded_service
                          (handle_gesture (Some THUMB_UP)
                             (start volume_registry quiet_room)).1)).1)
  = [guarded_service] ∧
  env (handle_gesture (Some CLOSED_FIST)
         (register THUMB_UP guarded_service
            (handle_gesture (Some THUMB_UP)
               (start volume_registry quiet_room)).1)).1
  = (confirmation THUMB_UP guarded_service quiet_room).1.
Proof.
  split_and!; [discriminate|vm_compute; reflexivity| |].
  - apply (registration_is_read_at_confirmation volume_registry THUMB_UP
             volume_up THUMB_UP guarded_service quiet_room);
      [discriminate|vm_compute; reflexivity].
  - apply (registration_is_read_at_confirmation volume_registry THUMB_UP
             volume_up THUMB_UP guarded_service quiet_room);
      [discriminate|vm_compute; reflexivity].
Defined.

Lemma registration_after_observation_is_too_late_witness :
  gesture_action_map volume_registry !! VICTORY = None ∧
  performed (events (handle_gesture (Some CLOSED_FIST)
                       (register VICTORY volume_up
                          (handle_gesture (Some VICTORY)
                             (start volume_registry quiet_room)).1)).1)
  = [].
Proof.
  split; [vm_compute; reflexivity|].
  apply (registration_after_observation_is_too_late volume_registry VICTORY
           volume_up quiet_room).
  vm_compute; reflexivity.
Defined.

Lemma cycles_perform_in_order_witness :
  Forall (fun '(g, _) =>
            g ≠ CLOSED_FIST ∧
            ∃ a, gesture_action_map volume_registry !! g = Some a ∧
                 never_raises (action a))
         [(THUMB_UP, None); (THUMB_UP, Some VICTORY)] ∧
  performed (events (handle_gestures
                       (cycles [(THUMB_UP, None); (THUMB_UP, Some VICTORY)])
                       (start volume_registry quiet_room)).1)
  = omap (fun '(g, _) => gesture_action_map volume_registry !! g)
      [(THUMB_UP, None : option Gesture); (THUMB_UP, Some VICTORY)] ∧
  env (handle_gestures
         (cycles [(THUMB_UP, None); (THUMB_UP, Some VICTORY)])
         (start volume_registry quiet_room)).1
  = confirmations volume_registry
      [(THUMB_UP, None); (THUMB_UP, Some VICTORY)] quiet_room.
Proof.
  assert (Forall (fun '(g, _) =>
            g ≠ CLOSED_FIST ∧
            ∃ a, gesture_action_map volume_registry !! g = Some a ∧
                 never_raises (action a))
         [(THUMB_UP, None : option Gesture); (THUMB_UP, Some VICTORY)]) as Hgs.
  { assert (THUMB_UP ≠ CLOSED_FIST ∧
            ∃ a, gesture_action_map volume_registry !! THUMB_UP = Some a ∧
                 never_raises (action a)) as Hone.
    { split; [discriminate|]. exists volume_up.
      split; [vm_compute; reflexivity|intros e; reflexivity]. }
    apply Forall_cons; split; [exact Hone|].
    apply Forall_cons; split; [exact Hone|].
    apply Forall_nil_2. }
  split; [exact Hgs|]. split.
  - apply (cycles_perform_in_order volume_registry quiet_room _ Hgs).
  - apply (cycles_perform_in_order volume_registry quiet_room _ Hgs).
Defined.

Lemma gesture_after_confirmation_is_lost_witness :
  THUMB_UP ≠ CLOSED_FIST ∧
  gesture_action_map volume_registry !! THUMB_UP = Some volume_up ∧
  never_raises (action volume_up) ∧
  performed (events (handle_gestures
                       [Some THUMB_UP; Some CLOSED_FIST; Some THUMB_UP;
                        Some CLOSED_FIST]
                       (start volume_registry quiet_room)).1)
  = [volume_up] ∧
  env (handle_gestures
         [Some THUMB_UP; Some CLOSED_FIST; Some THUMB_UP; Some CLOSED_FIST]
         (start volume_registry quiet_room)).1
  = (confirmation THUMB_UP volume_up quiet_room).1.
Proof.
  split_and!;
    [discriminate|vm_compute; reflexivity|intros e; reflexivity| |].
  - apply (gesture_after_confirmation_is_lost volume_registry THUMB_UP
             volume_up (Some THUMB_UP) quiet_room);
      [discriminate|vm_compute; reflexivity|intros e; reflexivity].
  - apply (gesture_after_confirmation_is_lost volume_registry THUMB_UP
             volume_up (Some THUMB_UP) quiet_room);
      [discriminate|vm_compute; reflexivity|intros e; reflexivity].
Defined.

Lemma volume_requests_stay_in_range_witness :
  sp_current_volume_percent player quiet_room = (quiet_room, Returned 40%Z) ∧
  ∃ up down : Z,
    increment_volume_impl player quiet_room = sp_volume player up quiet_room ∧
    decrease_volume_impl player quiet_room = sp_volume player down quiet_room ∧
    (up ≤ 100)%Z ∧ (0 ≤ down)%Z ∧
    ((0 ≤ 40 ≤ 100)%Z →
       (40 ≤ up ≤ 40 + 10)%Z ∧ (40 - 10 ≤ down ≤ 40)%Z ∧
       (0 ≤ up)%Z ∧ (down ≤ 100)%Z ∧
       (up = 40 ↔ 40 = 100)%Z ∧ (down = 40 ↔ 40 = 0)%Z).
Proof.
  split; [reflexivity|].
  apply (volume_requests_stay_in_range player quiet_room quiet_room 40).
  reflexivity.
Defined.

Lemma decrease_after_increase_witness :
  keeps_volume player ∧
  sp_current_volume_percent player loud_room = (loud_room, Returned 95%Z) ∧
  (0 ≤ 95 ≤ 100)%Z ∧
  sp_current_volume_percent player
    (decrease_volume_impl player (increment_volume_impl player loud_room).1).1
  = ((decrease_volume_impl player (increment_volume_impl player loud_room).1).1,
     Returned (Z.min 90 95)).
Proof.
  assert (keeps_volume player) as Hkeeps.
  { intros n e Hn. split; [reflexivity|].
    simpl. by rewrite Z2Nat.id by lia. }
  assert (0 ≤ 95 ≤ 100)%Z as Hrange by lia.
  split; [exact Hkeeps|]. split; [reflexivity|]. split; [exact Hrange|].
  apply (decrease_after_increase player loud_room loud_room 95 Hkeeps
           eq_refl Hrange).
Defined.

Lemma failed_read_requests_no_volume_witness :
  sp_current_volume_percent unreachable_player quiet_room
  = (quiet_room, Raised (SpotifyException "http status: 503")) ∧
  is_Exception (SpotifyException "http status: 503") = true ∧
  ∃ line,
    increment_volume (with_client unreachable_player offline_controller)
      quiet_room
    = (print line quiet_room, Returned tt).
Proof.
  split_and!; [reflexivity|reflexivity|].
  apply (failed_read_requests_no_volume unreachable_player offline_controller
           quiet_room quiet_room (SpotifyException "http status: 503"));
    reflexivity.
Defined.

Lemma get_instance_builds_once_witness :
  let load_dotenv : Call nat unit := fun e => (e, Returned tt) in
  let new_client : Call nat (Spotify nat) := fun e => (e, Returned player) in
  get_instance load_dotenv new_client None loud_room
  = (Some player, loud_room, Returned player) ∧
  get_instance load_dotenv new_client (Some player) quiet_room
  = (Some player, quiet_room, Returned player).
Proof.
  intros load_dotenv new_client.
  split; [reflexivity|].
  apply (get_instance_builds_once load_dotenv new_client loud_room
           (Some player) loud_room player eq_refl).
Defined.

Lemma repr_determines_state_and_pending_witness :
  ActionApprovalManager_repr (manager (awaiting THUMB_UP volume_registry))
  = ActionApprovalManager_repr (manager (awaiting THUMB_UP failing_registry)) ∧
  pending_gesture (manager (awaiting THUMB_UP volume_registry))
  = pending_gesture (manager (awaiting THUMB_UP failing_registry)).
Proof.
  split; [reflexivity|].
  apply (repr_determines_state_and_pending
           (manager (awaiting THUMB_UP volume_registry))
           (manager (awaiting THUMB_UP failing_registry))).
  reflexivity.
Defined.

Lemma startup_cycle_never_raises_witness :
  let sp := player_controller unreachable_player in
  raises_only_Exception (get_current_device_body sp) ∧
  raises_only_Exception (increment_volume_body sp) ∧
  (handle_gestures [Some POINTING_UP; Some CLOSED_FIST; None]
     (ApplicationController_init sp quiet_room)).2 = Returned tt.
Proof.
  intros sp.
  assert (∀ f : Call nat unit,
            (∀ e, f e = (e, Returned tt)) → raises_only_Exception f) as Hok.
  { intros f Hf e x. rewrite Hf. discriminate. }
  assert (∀ n, raises_only_Exception (sp_volume unreachable_player n)) as Hvol.
  { intros n e x [= <-]. reflexivity. }
  assert (raises_only_Exception (increment_volume_body sp)) as Hinc.
  { intros e x [= <-]. reflexivity. }
  assert (raises_only_Exception (get_current_device_body sp)) as Hdev.
  { intros e x. discriminate. }
  split_and!; [exact Hdev|exact Hinc|].
  apply (startup_cycle_never_raises sp
           [Some POINTING_UP; Some CLOSED_FIST; None] quiet_room);
    [exact Hdev|by apply Hok|by apply Hok|by apply Hok|exact Hinc
    |apply Hvol|apply Hvol].
Defined.

Lemma device_lookup_failure_does_not_stop_the_call_witness :
  device_id quiet_room = None ∧
  get_current_device_body offline_controller quiet_room
  = (quiet_room, Raised (SpotifyException "http status: 503")) ∧
  is_Exception (SpotifyException "http status: 503") = true ∧
  ∃ line,
    ensure_device (get_current_device offline_controller)
      (stop_playback_body offline_controller) quiet_room
    = stop_playback_body offline_controller
        (set_device_id None (print line quiet_room)).
Proof.
  split_and!; [reflexivity|reflexivity|reflexivity|].
  apply (device_lookup_failure_does_not_stop_the_call offline_controller
           (stop_playback_body offline_controller) quiet_room quiet_room
           (SpotifyException "http status: 503")); reflexivity.
Defined.

(** Two confirmed cycles of the thumb raise the volume twice, from 40
    to 60. *)
Example two_cycles_raise_the_volume_twice :
  world (env (handle_gestures
                (cycles [(THUMB_UP, None); (THUMB_UP, Some VICTORY)])
                (start volume_registry quiet_room)).1) = 60.
Proof. by vm_compute. Qed.

(** The approval cycle over the unreachable player: the error in the
    request is printed and the cycle goes on. *)
Example unreachable_player_is_reported :
  let run := handle_gestures [Some POINTING_UP; Some CLOSED_FIST; None]
               (ApplicationController_init (player_controller unreachable_player)
                  quiet_room) in
  run.2 = Returned tt ∧
  state (manager run.1) = IdleState ∧
  stdout (env run.1)
  = ["Gesture 'Pointing_Up' detected. Waiting for approval...";
     "Performing action: Increase Volume";
     "Spotify error in increment_volume: http status: 503"].
Proof. by vm_compute. Qed.
